(** * The TV-shield example of OpenMV: scripts/examples/31-TV-Shield/tv.py

    The script imports three firmware modules, makes five one-time calls
    that set the camera and the TV shield up, and then loops for ever,
    handing each snapshot of the sensor to the TV.

    The firmware modules [sensor] and [tv] are not part of the script.  They
    are its environment: every call on them is an event of an interaction
    tree, answered by an arbitrary oracle that either returns an object or
    raises an exception.  The script itself is the tree [tv_script]. *)

From Stdlib Require Import String List ZArith Lia Bool Arith.
From ITree Require Import ITree Events.Exception.
Import ListNotations.
Import ITreeNotations.
Local Open Scope itree_scope.
Local Open Scope string_scope.
Local Open Scope list_scope.

(** ** Python objects and the calls of the script *)

(** An object is known by its reference only: the script never looks inside
    one.  Two objects are the same object when their references are equal. *)
Definition obj : Type := nat.

(** A constant of the sensor module, such as [sensor.RGB565].  Its numeric
    value lives in the firmware; the script only names it. *)
Variant const : Type :=
| sensor_attr (name : string).

(** The calls the script can make on its environment, with their arguments. *)
Variant call : Type :=
| ImportModule (name : string)
| SensorReset
| SensorSetPixformat (pixformat : const)
| SensorSetFramesize (framesize : const)
| TvInit
| TvChannel (channel : Z)
| SensorSnapshot
| TvDisplay (image : obj).

(** Every Python call evaluates to an object (possibly [None]). *)
Variant pyE : Type -> Type :=
| Call (c : call) : pyE obj.

Definition invoke (c : call) : itree pyE obj := ITree.trigger (Call c).

(** An expression statement evaluates its expression and drops the value. *)
Definition stmt (e : itree pyE obj) : itree pyE unit := e ;; Ret tt.

(** [import m]: binds the module; what it evaluates to is not a value of
    the script. *)
Definition import (name : string) : itree pyE unit :=
  stmt (invoke (ImportModule name)).

(** [while cond: body], for a body without [break]: the condition is
    evaluated before every iteration, and the loop is left when it is
    false. *)
Definition while (cond : itree pyE bool) (body : itree pyE unit)
  : itree pyE unit :=
  ITree.iter (fun _ : unit =>
    b <- cond ;;
    if b : bool then body ;; Ret (inl tt) else Ret (inr tt)) tt.

Module sensor.
Definition RGB565 : const := sensor_attr "RGB565".
Definition GRAYSCALE : const := sensor_attr "GRAYSCALE".
Definition QQVGA : const := sensor_attr "QQVGA".
Definition reset : itree pyE obj := invoke SensorReset.
Definition set_pixformat (p : const) : itree pyE obj :=
  invoke (SensorSetPixformat p).
Definition set_framesize (s : const) : itree pyE obj :=
  invoke (SensorSetFramesize s).
Definition snapshot : itree pyE obj := invoke SensorSnapshot.
End sensor.

Module tv.
Definition init : itree pyE obj := invoke TvInit.
Definition channel (n : Z) : itree pyE obj := invoke (TvChannel n).
Definition display (image : obj) : itree pyE obj := invoke (TvDisplay image).
End tv.

(** ** The script *)

(** The body of the loop, line 15: the argument [sensor.snapshot()] is
    evaluated first, then [tv.display] is called on its value. *)
Definition loop_body : itree pyE unit :=
  stmt (img <- sensor.snapshot ;; tv.display img).

(** Lines 14 and 15. *)
Definition display_loop : itree pyE unit :=
  while (Ret true) loop_body.

(** Lines 7 to 15. *)
Definition tv_script : itree pyE unit :=
  import "sensor" ;; import "image" ;; import "tv" ;;
  stmt sensor.reset ;;
  stmt (sensor.set_pixformat sensor.RGB565) ;;
  stmt (sensor.set_framesize sensor.QQVGA) ;;
  stmt tv.init ;;
  stmt (tv.channel 8) ;;
  display_loop.

(** ** Running the script against an environment *)

(** A call either returns an object or raises an exception (an object
    too). *)
Variant outcome : Type :=
| Returned (v : obj)
| Raised (e : obj).

(** One completed call: what was called and how it came back. *)
Definition entry : Type := (call * outcome)%type.

(** The environment: it answers a call knowing every call completed so
    far.  Any deterministic behaviour of the firmware is such a function,
    and the theorems below hold for all of them. *)
Definition oracle : Type := list entry -> call -> outcome.

(** Where the script is: still running, with the rest of the program; at the
    end of the module; or stopped by an exception nobody caught. *)
Variant status : Type :=
| Running (rest : itree' pyE unit)
| Finished
| Uncaught (e : obj).

Record config : Type := Config { trace : list entry; st : status }.

(** The script has no [try]: an exception raised by a call ends the run. *)
Definition answer (env : oracle) (tr : list entry) {X} (e : pyE X)
  : (X -> itree pyE unit) -> config :=
  match e in pyE X return (X -> itree pyE unit) -> config with
  | Call c => fun k =>
      match env tr c with
      | Returned v => Config (tr ++ [(c, Returned v)]) (Running (observe (k v)))
      | Raised e => Config (tr ++ [(c, Raised e)]) (Uncaught e)
      end
  end.

(** One step: a call on the environment, or the jump back to the head of a
    loop. *)
Definition step (env : oracle) (c : config) : config :=
  match st c with
  | Running (RetF _) => Config (trace c) Finished
  | Running (TauF t) => Config (trace c) (Running (observe t))
  | Running (VisF e k) => answer env (trace c) e k
  | Finished => c
  | Uncaught _ => c
  end.

Fixpoint run (env : oracle) (n : nat) (c : config) : config :=
  match n with
  | O => c
  | S n' => run env n' (step env c)
  end.

Definition start : config := Config [] (Running (observe tv_script)).

(** The run of the script for [n] steps. *)
Definition exec (env : oracle) (n : nat) : config := run env n start.

(** What is left of a program waiting on a call, once the call returns
    [v]. *)
Definition resume (t : itree' pyE unit) (v : obj) : itree' pyE unit :=
  match t with
  | VisF e k =>
      match e in pyE X return (X -> itree pyE unit) -> itree' pyE unit with
      | Call _ => fun k => observe (k v)
      end k
  | _ => t
  end.

(** The program at the head of the loop. *)
Definition LOOP : itree' pyE unit := observe display_loop.

(** ** Reading a trace *)

Definition calls (tr : list entry) : list call := map fst tr.

Definition is_config (c : call) : bool :=
  match c with
  | SensorReset | SensorSetPixformat _ | SensorSetFramesize _
  | TvInit | TvChannel _ => true
  | _ => false
  end.

(** The configuration calls made, in order. *)
Definition config_calls (tr : list entry) : list call :=
  filter is_config (calls tr).

(** The frames the captures returned, in order. *)
Definition frames (tr : list entry) : list obj :=
  flat_map (fun en : entry =>
    match en with
    | (SensorSnapshot, Returned f) => [f]
    | _ => []
    end) tr.

(** The arguments [tv.display] was called with, in order. *)
Definition displayed (tr : list entry) : list obj :=
  flat_map (fun en : entry =>
    match en with
    | (TvDisplay img, _) => [img]
    | _ => []
    end) tr.

(** The iterations of the loop that ran to their end. *)
Definition iterations (tr : list entry) : nat :=
  length (filter (fun en : entry =>
    match en with
    | (TvDisplay _, Returned _) => true
    | _ => false
    end) tr).

(** The calls made before the loop is entered, that is before the first
    capture. *)
Fixpoint before_loop (cs : list call) : list call :=
  match cs with
  | [] => []
  | SensorSnapshot :: _ => []
  | c :: cs' => c :: before_loop cs'
  end.

Definition imports : list call :=
  [ImportModule "sensor"; ImportModule "image"; ImportModule "tv"].

Definition setup : list call :=
  [SensorReset; SensorSetPixformat sensor.RGB565;
   SensorSetFramesize sensor.QQVGA; TvInit; TvChannel 8].

(** ** The configurations a run goes through *)

Definition prelude : list call := imports ++ setup.

(** The entries of the first calls of the script, all returned. *)
Definition returned (vs : list obj) : list entry :=
  combine prelude (map Returned vs).

(** The entries of completed iterations, each given by the frame captured
    and by what [tv.display] returned. *)
Definition iters (its : list (obj * obj)) : list entry :=
  flat_map (fun it : obj * obj =>
    [(SensorSnapshot, Returned (fst it)); (TvDisplay (fst it), Returned (snd it))])
    its.

(** The configurations of a run, each with the number of steps that leads
    to it.  A run that an exception stopped stays where it is. *)
Inductive reach : nat -> config -> Prop :=
| reach_prelude vs :
    length vs < 8 ->
    reach (length vs)
      (Config (returned vs)
         (Running (fold_left resume vs (observe tv_script))))
| reach_prelude_raised n vs c e :
    nth_error prelude (length vs) = Some c ->
    length vs < n ->
    reach n (Config (returned vs ++ [(c, Raised e)]) (Uncaught e))
| reach_head vs its :
    length vs = 8 ->
    reach (8 + 3 * length its)
      (Config (returned vs ++ iters its) (Running LOOP))
| reach_captured vs its f :
    length vs = 8 ->
    reach (9 + 3 * length its)
      (Config (returned vs ++ iters its ++ [(SensorSnapshot, Returned f)])
         (Running (resume LOOP f)))
| reach_back vs its f v :
    length vs = 8 ->
    reach (10 + 3 * length its)
      (Config (returned vs ++ iters (its ++ [(f, v)]))
         (Running (TauF display_loop)))
| reach_capture_raised n vs its e :
    length vs = 8 ->
    8 + 3 * length its < n ->
    reach n
      (Config (returned vs ++ iters its ++ [(SensorSnapshot, Raised e)])
         (Uncaught e))
| reach_display_raised n vs its f e :
    length vs = 8 ->
    9 + 3 * length its < n ->
    reach n
      (Config (returned vs ++ iters its ++
               [(SensorSnapshot, Returned f); (TvDisplay f, Raised e)])
         (Uncaught e)).

(** The calls of the loop, read from the first capture on. *)
Inductive loop_trace : list entry -> Prop :=
| loop_nil : loop_trace []
| loop_capture_raised e : loop_trace [(SensorSnapshot, Raised e)]
| loop_captured f : loop_trace [(SensorSnapshot, Returned f)]
| loop_display_raised f e :
    loop_trace [(SensorSnapshot, Returned f); (TvDisplay f, Raised e)]
| loop_iteration f v rest :
    loop_trace rest ->
    loop_trace ((SensorSnapshot, Returned f) :: (TvDisplay f, Returned v) :: rest).

(** The traces of the script: some first calls of the prelude, the last of
    which may have raised, and, once all eight have returned, the calls of
    the loop. *)
Inductive script_trace : list entry -> Prop :=
| trace_prelude vs :
    length vs < 8 -> script_trace (returned vs)
| trace_prelude_raised vs c e :
    nth_error prelude (length vs) = Some c ->
    script_trace (returned vs ++ [(c, Raised e)])
| trace_loop vs lt :
    length vs = 8 -> loop_trace lt -> script_trace (returned vs ++ lt).

(** The last call completed, if any. *)
Definition last_entry (tr : list entry) : option entry := hd_error (rev tr).

(** The calls the script makes when the captures return the frames [fs]:
    determined by the frames alone. *)
Definition loop_calls (fs : list obj) : list call :=
  flat_map (fun f => [SensorSnapshot; TvDisplay f]) fs ++ [SensorSnapshot].

Definition script_calls (fs : list obj) : list call :=
  imports ++ setup ++ loop_calls fs.

(** ** Environments to run the script against *)

(** Every call returns; the object returned is a fresh one. *)
Definition env_ok : oracle := fun tr _ => Returned (length tr).

(** The sensor is missing: [sensor.reset] raises. *)
Definition env_no_sensor : oracle := fun tr c =>
  match c with
  | SensorReset => Raised 100
  | _ => Returned (length tr)
  end.

(** The TV shield is missing: [tv.init] raises. *)
Definition env_no_shield : oracle := fun tr c =>
  match c with
  | TvInit => Raised 101
  | _ => Returned (length tr)
  end.

(** The captures return the frames 1 and 2; the third capture raises. *)
Definition env_capture_fails : oracle := fun tr c =>
  match c with
  | SensorSnapshot =>
      if Nat.ltb (length (frames tr)) 2
      then Returned (S (length (frames tr)))
      else Raised 102
  | _ => Returned 0
  end.

(** The captures return the frames 1, 2, ...; the display of frame 2
    raises. *)
Definition env_display_fails : oracle := fun tr c =>
  match c with
  | SensorSnapshot => Returned (S (length (frames tr)))
  | TvDisplay 2 => Raised 103
  | _ => Returned 0
  end.

(** The firmware has no [tv] module: [import tv] raises. *)
Definition env_no_tv_module : oracle := fun tr c =>
  match c with
  | ImportModule name =>
      if String.eqb name "tv" then Raised 104 else Returned (length tr)
  | _ => Returned (length tr)
  end.

(** The captures return the frames 1, 2, 3, ... and [tv.display] returns
    [None], here the object 0. *)
Definition env_frames : oracle := fun tr c =>
  match c with
  | SensorSnapshot => Returned (S (length (frames tr)))
  | _ => Returned 0
  end.

(** ** The script where an exception could be caught *)

(** Above, a call that raises ends the run at once, whatever the program
    is.  To say that it is this script that lets exceptions through, the
    script is read a second time over events in which the answer of a call
    comes back to the program either way and raising is an event of its
    own, [Throw], that a handler ([try_catch], the [try ... except] of
    Python) around the call would intercept. *)

(** The text of the script, lines 7 to 15, for any way [invoke] of making a
    call. *)
Definition body_with {E : Type -> Type} (invoke : call -> itree E obj)
  : itree E unit :=
  (img <- invoke SensorSnapshot ;; invoke (TvDisplay img)) ;; Ret tt.

Definition loop_with {E : Type -> Type} (invoke : call -> itree E obj)
  : itree E unit :=
  ITree.iter (fun _ : unit =>
    b <- Ret true ;;
    if b : bool then body_with invoke ;; Ret (inl tt) else Ret (inr tt)) tt.

Definition script_with {E : Type -> Type} (invoke : call -> itree E obj)
  : itree E unit :=
  let stmt (e : itree E obj) : itree E unit := e ;; Ret tt in
  let import (name : string) : itree E unit :=
    stmt (invoke (ImportModule name)) in
  import "sensor" ;; import "image" ;; import "tv" ;;
  stmt (invoke SensorReset) ;;
  stmt (invoke (SensorSetPixformat sensor.RGB565)) ;;
  stmt (invoke (SensorSetFramesize sensor.QQVGA)) ;;
  stmt (invoke TvInit) ;;
  stmt (invoke (TvChannel 8)) ;;
  loop_with invoke.

(** A call comes back with its outcome. *)
Variant answerE : Type -> Type :=
| Answer (c : call) : answerE outcome.

Definition pyX : Type -> Type := exceptE obj +' answerE.

(** [raise e]. *)
Definition raise {R : Type} (e : obj) : itree pyX R :=
  Vis (inl1 (Throw e)) (fun v : void => match v with end).

(** A call as Python makes it: what it returns is its value, and what it
    raises is raised where the call stands. *)
Definition attempt (c : call) : itree pyX obj :=
  o <- ITree.trigger (inr1 (Answer c)) ;;
  match o with
  | Returned v => Ret v
  | Raised e => raise e
  end.

Variant statusX : Type :=
| RunningX (rest : itree' pyX unit)
| FinishedX
| UncaughtX (e : obj).

Record configX : Type := ConfigX { traceX : list entry; stX : statusX }.

(** An exception that reaches the top of the program ends the run; a call
    is answered by the environment and the program goes on with the
    answer. *)
Definition eventX (env : oracle) (tr : list entry) {X} (ev : pyX X)
  : (X -> itree pyX unit) -> configX :=
  match ev with
  | inl1 ex =>
      match ex in exceptE _ X return (X -> itree pyX unit) -> configX with
      | Throw e => fun _ => ConfigX tr (UncaughtX e)
      end
  | inr1 a =>
      match a in answerE X return (X -> itree pyX unit) -> configX with
      | Answer c => fun k =>
          ConfigX (tr ++ [(c, env tr c)]) (RunningX (observe (k (env tr c))))
      end
  end.

Definition stepX (env : oracle) (c : configX) : configX :=
  match stX c with
  | RunningX (RetF _) => ConfigX (traceX c) FinishedX
  | RunningX (TauF t) => ConfigX (traceX c) (RunningX (observe t))
  | RunningX (VisF ev k) => eventX env (traceX c) ev k
  | FinishedX => c
  | UncaughtX _ => c
  end.

Fixpoint runX (env : oracle) (n : nat) (c : configX) : configX :=
  match n with
  | O => c
  | S n' => runX env n' (stepX env c)
  end.

(** The run of the script, for [n] steps, with exceptions raised at the
    calls. *)
Definition execX (env : oracle) (n : nat) : configX :=
  runX env n (ConfigX [] (RunningX (observe (script_with attempt)))).

(** Not the script: the script inside [try: ... except: pass]. *)
Definition guarded_script : itree pyX unit :=
  try_catch (script_with attempt) (fun _ => Ret tt).

(** Not the script: a program that raises by itself. *)
Definition raising_program : itree pyX unit := raise 7.

Definition resumeX (t : itree' pyX unit) (v : obj) : itree' pyX unit :=
  match t with
  | VisF ev k =>
      match ev with
      | inl1 _ => fun _ => t
      | inr1 a =>
          match a in answerE X return (X -> itree pyX unit) -> itree' pyX unit
          with
          | Answer _ => fun k => observe (k (Returned v))
          end
      end k
  | _ => t
  end.

Definition LOOPX : itree' pyX unit := observe (loop_with attempt).

(** The exception [e] is on its way out: raised and about to end the run,
    or the run has ended on it. *)
Definition stopped (e : obj) (s : statusX) : Prop :=
  s = UncaughtX e \/ exists k, s = RunningX (VisF (inl1 (Throw e)) k).

(** The two runs of the script, side by side. *)
Inductive both : config -> configX -> Prop :=
| both_prelude vs :
    length vs < 8 ->
    both (Config (returned vs)
            (Running (fold_left resume vs (observe tv_script))))
         (ConfigX (returned vs)
            (RunningX (fold_left resumeX vs (observe (script_with attempt)))))
| both_prelude_raised vs c e s :
    nth_error prelude (length vs) = Some c ->
    stopped e s ->
    both (Config (returned vs ++ [(c, Raised e)]) (Uncaught e))
         (ConfigX (returned vs ++ [(c, Raised e)]) s)
| both_head vs its :
    length vs = 8 ->
    both (Config (returned vs ++ iters its) (Running LOOP))
         (ConfigX (returned vs ++ iters its) (RunningX LOOPX))
| both_captured vs its f :
    length vs = 8 ->
    both (Config (returned vs ++ iters its ++ [(SensorSnapshot, Returned f)])
            (Running (resume LOOP f)))
         (ConfigX (returned vs ++ iters its ++ [(SensorSnapshot, Returned f)])
            (RunningX (resumeX LOOPX f)))
| both_back vs its f v :
    length vs = 8 ->
    both (Config (returned vs ++ iters (its ++ [(f, v)]))
            (Running (TauF display_loop)))
         (ConfigX (returned vs ++ iters (its ++ [(f, v)]))
            (RunningX (TauF (loop_with attempt))))
| both_capture_raised vs its e s :
    length vs = 8 ->
    stopped e s ->
    both (Config (returned vs ++ iters its ++ [(SensorSnapshot, Raised e)])
            (Uncaught e))
         (ConfigX (returned vs ++ iters its ++ [(SensorSnapshot, Raised e)]) s)
| both_display_raised vs its f e s :
    length vs = 8 ->
    stopped e s ->
    both (Config (returned vs ++ iters its ++
                  [(SensorSnapshot, Returned f); (TvDisplay f, Raised e)])
            (Uncaught e))
         (ConfigX (returned vs ++ iters its ++
                   [(SensorSnapshot, Returned f); (TvDisplay f, Raised e)]) s).

(** * Properties *)

(** ** Steps of the script *)

Lemma iters_snoc its f v :
  iters (its ++ [(f, v)]) =
  iters its ++ [(SensorSnapshot, Returned f); (TvDisplay f, Returned v)].
Proof. unfold iters. rewrite flat_map_app. cbn. reflexivity. Qed.

Lemma prelude_step vs :
  length vs < 8 ->
  exists c, nth_error prelude (length vs) = Some c /\
    forall env,
      step env (Config (returned vs)
                  (Running (fold_left resume vs (observe tv_script)))) =
      match env (returned vs) c with
      | Returned v =>
          Config (returned (vs ++ [v]))
            (Running (fold_left resume (vs ++ [v]) (observe tv_script)))
      | Raised e => Config (returned vs ++ [(c, Raised e)]) (Uncaught e)
      end.
Proof.
  intros H.
  do 8 (try destruct vs as [|? vs]); cbn [length] in H; try lia.
  all: eexists; split; [reflexivity|]; intros env; unfold step; cbn.
  all: match goal with
       | |- context [match ?x with Returned _ => _ | Raised _ => _ end] =>
           destruct x
       end.
  all: reflexivity.
Qed.

Lemma prelude_done vs :
  length vs = 8 -> fold_left resume vs (observe tv_script) = LOOP.
Proof.
  intros H.
  do 9 (try destruct vs as [|? vs]); cbn [length] in H; try lia.
  reflexivity.
Qed.

Lemma head_step env tr :
  step env (Config tr (Running LOOP)) =
  match env tr SensorSnapshot with
  | Returned f =>
      Config (tr ++ [(SensorSnapshot, Returned f)]) (Running (resume LOOP f))
  | Raised e => Config (tr ++ [(SensorSnapshot, Raised e)]) (Uncaught e)
  end.
Proof. unfold step; cbn. destruct (env tr SensorSnapshot); reflexivity. Qed.

Lemma captured_step env tr f :
  step env (Config tr (Running (resume LOOP f))) =
  match env tr (TvDisplay f) with
  | Returned v =>
      Config (tr ++ [(TvDisplay f, Returned v)]) (Running (TauF display_loop))
  | Raised e => Config (tr ++ [(TvDisplay f, Raised e)]) (Uncaught e)
  end.
Proof. unfold step; cbn. destruct (env tr (TvDisplay f)); reflexivity. Qed.

Lemma back_step env tr :
  step env (Config tr (Running (TauF display_loop))) = Config tr (Running LOOP).
Proof. reflexivity. Qed.

Lemma reach_step env n c : reach n c -> reach (S n) (step env c).
Proof.
  intros [vs H|k vs c0 e H L|vs its H|vs its f H|vs its f v H
         |k vs its e H L|k vs its f e H L].
  - destruct (prelude_step vs H) as (c0 & Hc & Hs).
    rewrite Hs. destruct (env _ _) as [v|e].
    + destruct (Nat.eq_dec (length vs) 7) as [E|E].
      * assert (L : length (vs ++ [v]) = 8) by (rewrite length_app; cbn; lia).
        rewrite (prelude_done _ L), <- (app_nil_r (returned _)).
        replace (S (length vs)) with (8 + 3 * length (@nil (obj * obj)))
          by (cbn; lia).
        apply (reach_head (vs ++ [v]) [] L).
      * replace (S (length vs)) with (length (vs ++ [v]))
          by (rewrite length_app; cbn; lia).
        apply reach_prelude. rewrite length_app. cbn. lia.
    + apply reach_prelude_raised; [exact Hc | lia].
  - apply reach_prelude_raised; [exact H | lia].
  - rewrite head_step.
    destruct (env _ _) as [f|e]; rewrite <- app_assoc.
    + apply (reach_captured vs its f H).
    + apply reach_capture_raised; [exact H | lia].
  - rewrite captured_step.
    destruct (env _ _) as [v|e].
    + replace (_ ++ [(TvDisplay f, Returned v)])
        with (returned vs ++ iters (its ++ [(f, v)])).
      * apply (reach_back vs its f v H).
      * rewrite iters_snoc, <- !app_assoc. reflexivity.
    + rewrite <- !app_assoc. cbn [app].
      apply reach_display_raised; [exact H | lia].
  - rewrite back_step.
    replace (S (10 + 3 * length its)) with (8 + 3 * length (its ++ [(f, v)]))
      by (rewrite length_app; cbn; lia).
    apply reach_head. exact H.
  - apply reach_capture_raised; [exact H | lia].
  - apply reach_display_raised; [exact H | lia].
Qed.

Lemma run_S env n c : run env (S n) c = step env (run env n c).
Proof. revert c. induction n as [|n IH]; intros c; [reflexivity|]. cbn. apply (IH (step env c)). Qed.

Lemma exec_S env n : exec env (S n) = step env (exec env n).
Proof. apply run_S. Qed.

Lemma reach_exec env n : reach n (exec env n).
Proof.
  induction n as [|n IH].
  - apply (reach_prelude []). cbn. lia.
  - rewrite exec_S. apply reach_step. exact IH.
Qed.

(** ** Reading the traces of a run *)

Ltac enum_all vs := do 9 (try destruct vs as [|? vs]).

Ltac enum_prefix vs H := enum_all vs; cbn [length] in H; try lia.

Lemma calls_app a b : calls (a ++ b) = calls a ++ calls b.
Proof. apply map_app. Qed.

Lemma config_calls_app a b :
  config_calls (a ++ b) = config_calls a ++ config_calls b.
Proof. unfold config_calls. rewrite calls_app. apply filter_app. Qed.

Lemma frames_app a b : frames (a ++ b) = frames a ++ frames b.
Proof. apply flat_map_app. Qed.

Lemma displayed_app a b : displayed (a ++ b) = displayed a ++ displayed b.
Proof. apply flat_map_app. Qed.

Lemma iterations_app a b : iterations (a ++ b) = iterations a + iterations b.
Proof. unfold iterations. rewrite filter_app. apply length_app. Qed.

Lemma prelude_index (vs : list obj) c :
  nth_error prelude (length vs) = Some c -> length vs < 8.
Proof.
  intros H. apply (nth_error_Some prelude). congruence.
Qed.

Lemma calls_returned vs : calls (returned vs) = firstn (length vs) prelude.
Proof. enum_all vs; reflexivity. Qed.

Lemma length_returned vs : length (returned vs) = Nat.min (length vs) 8.
Proof. enum_all vs; reflexivity. Qed.

Lemma frames_returned vs : frames (returned vs) = [].
Proof. enum_all vs; reflexivity. Qed.

Lemma displayed_returned vs : displayed (returned vs) = [].
Proof. enum_all vs; reflexivity. Qed.

Lemma iterations_returned vs : iterations (returned vs) = 0.
Proof. enum_all vs; reflexivity. Qed.

Lemma config_calls_returned vs :
  config_calls (returned vs) = firstn (length vs - 3) setup.
Proof. enum_all vs; reflexivity. Qed.

Lemma frames_iters its : frames (iters its) = map fst its.
Proof.
  induction its as [|it its IH]; [reflexivity|].
  change (frames (iters (it :: its))) with (fst it :: frames (iters its)).
  rewrite IH. reflexivity.
Qed.

Lemma displayed_iters its : displayed (iters its) = map fst its.
Proof.
  induction its as [|it its IH]; [reflexivity|].
  change (displayed (iters (it :: its))) with (fst it :: displayed (iters its)).
  rewrite IH. reflexivity.
Qed.

Lemma iterations_iters its : iterations (iters its) = length its.
Proof.
  induction its as [|it its IH]; [reflexivity|].
  change (iterations (iters (it :: its))) with (S (iterations (iters its))).
  rewrite IH. reflexivity.
Qed.

Lemma config_calls_iters its : config_calls (iters its) = [].
Proof.
  induction its as [|it its IH]; [reflexivity|].
  change (config_calls (iters (it :: its))) with (config_calls (iters its)).
  exact IH.
Qed.

Lemma length_iters its : length (iters its) = 2 * length its.
Proof.
  induction its as [|it its IH]; [reflexivity|].
  change (length (iters (it :: its))) with (S (S (length (iters its)))).
  rewrite IH. cbn. lia.
Qed.

Lemma loop_trace_iters its tail :
  loop_trace tail -> loop_trace (iters its ++ tail).
Proof.
  intros H. induction its as [|[f v] its IH]; cbn; [exact H|].
  apply loop_iteration. exact IH.
Qed.

Lemma reach_trace n c : reach n c -> script_trace (trace c).
Proof.
  intros [vs H|k vs c0 e H L|vs its H|vs its f H|vs its f v H
         |k vs its e H L|k vs its f e H L]; cbn [trace].
  - apply trace_prelude. exact H.
  - apply trace_prelude_raised. exact H.
  - apply trace_loop; [exact H|].
    rewrite <- (app_nil_r (iters its)). apply loop_trace_iters. constructor.
  - apply trace_loop; [exact H|]. apply loop_trace_iters. constructor.
  - apply trace_loop; [exact H|].
    rewrite <- (app_nil_r (iters _)). apply loop_trace_iters. constructor.
  - apply trace_loop; [exact H|]. apply loop_trace_iters. constructor.
  - apply trace_loop; [exact H|]. apply loop_trace_iters. constructor.
Qed.

Lemma exec_trace env n : script_trace (trace (exec env n)).
Proof. apply (reach_trace n). apply reach_exec. Qed.

(** *** The calls of the loop *)

Lemma loop_calls_cons f fs :
  loop_calls (f :: fs) = SensorSnapshot :: TvDisplay f :: loop_calls fs.
Proof. reflexivity. Qed.

Lemma loop_trace_calls lt :
  loop_trace lt -> calls lt = firstn (length lt) (loop_calls (frames lt)).
Proof.
  induction 1 as [|e|f|f e|f v rest H IH]; try reflexivity.
  change (frames (_ :: _ :: rest)) with (f :: frames rest).
  rewrite loop_calls_cons. cbn [length firstn calls map fst].
  do 2 f_equal. exact IH.
Qed.

Lemma loop_trace_next lt :
  loop_trace lt ->
  forall i f, nth_error lt i = Some (SensorSnapshot, Returned f) ->
    (exists o, nth_error lt (S i) = Some (TvDisplay f, o)) \/ S i = length lt.
Proof.
  induction 1 as [|e|f0|f0 e|f0 v rest H IH]; intros i f Hi.
  - destruct i; discriminate.
  - destruct i as [|[|i]]; discriminate.
  - destruct i as [|[|i]]; try discriminate. right. reflexivity.
  - destruct i as [|[|[|i]]]; try discriminate.
    injection Hi as <-. left. eexists. reflexivity.
  - destruct i as [|[|i]].
    + injection Hi as <-. left. eexists. reflexivity.
    + discriminate.
    + cbn [nth_error] in Hi. destruct (IH i f Hi) as [[o Ho]|E].
      * left. exists o. exact Ho.
      * right. cbn [length]. lia.
Qed.

Lemma loop_trace_alternates lt :
  loop_trace lt ->
  forall i c o, nth_error lt i = Some (c, o) ->
    if Nat.even i then c = SensorSnapshot
    else exists f, c = TvDisplay f /\
                   nth_error lt (i - 1) = Some (SensorSnapshot, Returned f).
Proof.
  induction 1 as [|e|f0|f0 e|f0 v rest H IH]; intros i c o Hi.
  - destruct i; discriminate.
  - destruct i as [|[|i]]; try discriminate. injection Hi as <- <-. reflexivity.
  - destruct i as [|[|i]]; try discriminate. injection Hi as <- <-. reflexivity.
  - destruct i as [|[|[|i]]]; try discriminate.
    + injection Hi as <- <-. reflexivity.
    + injection Hi as <- <-. exists f0. split; reflexivity.
  - destruct i as [|[|i]].
    + injection Hi as <- <-. reflexivity.
    + injection Hi as <- <-. exists f0. split; reflexivity.
    + cbn [nth_error] in Hi. specialize (IH i c o Hi).
      change (Nat.even (S (S i))) with (Nat.even i).
      destruct (Nat.even i) eqn:Ev; [exact IH|].
      destruct IH as (f & -> & Hf). exists f. split; [reflexivity|].
      destruct i as [|i]; [discriminate|].
      cbn [Nat.sub nth_error] in *. rewrite Nat.sub_0_r in Hf. exact Hf.
Qed.

Lemma loop_trace_raised_last lt :
  loop_trace lt ->
  forall i c e, nth_error lt i = Some (c, Raised e) -> S i = length lt.
Proof.
  induction 1 as [|e0|f0|f0 e0|f0 v rest H IH]; intros i c e Hi.
  - destruct i; discriminate.
  - destruct i as [|[|i]]; try discriminate. reflexivity.
  - destruct i as [|[|i]]; discriminate.
  - destruct i as [|[|[|i]]]; try discriminate. reflexivity.
  - destruct i as [|[|i]]; try discriminate.
    cbn [nth_error] in Hi. cbn [length]. rewrite <- (IH i c e Hi). reflexivity.
Qed.

Lemma loop_trace_no_config lt : loop_trace lt -> config_calls lt = [].
Proof. induction 1; try reflexivity. exact IHloop_trace. Qed.

Lemma loop_trace_kinds lt :
  loop_trace lt ->
  Forall (fun c => c = SensorSnapshot \/ exists img, c = TvDisplay img) (calls lt).
Proof.
  induction 1 as [|e|f|f e|f v rest H IH]; cbn [calls map fst].
  - constructor.
  - constructor; [left; reflexivity | constructor].
  - constructor; [left; reflexivity | constructor].
  - constructor; [left; reflexivity|].
    constructor; [right; exists f; reflexivity | constructor].
  - constructor; [left; reflexivity|].
    constructor; [right; exists f; reflexivity | exact IH].
Qed.

(** *** The last call of a trace *)

Lemma last_entry_snoc tr en : last_entry (tr ++ [en]) = Some en.
Proof. unfold last_entry. rewrite rev_app_distr. reflexivity. Qed.

Lemma last_entry_index tr i :
  S i = length tr -> nth_error tr i = last_entry tr.
Proof.
  destruct tr as [|en tr] using rev_ind; [discriminate|].
  rewrite length_app, last_entry_snoc. cbn [length]. intros E.
  rewrite nth_error_app2 by lia.
  replace (i - length tr) with 0 by lia. reflexivity.
Qed.

(** The last call of the prelude, when it returned, is not a capture and
    did not raise. *)
Lemma last_entry_returned vs :
  last_entry (returned vs) = None \/
  exists c v, In c prelude /\ last_entry (returned vs) = Some (c, Returned v).
Proof.
  enum_all vs; try (left; reflexivity).
  all: right; eexists; eexists; (split; [|reflexivity]); cbn; tauto.
Qed.

(** Between two iterations the last call is one of the prelude or a
    [tv.display] that returned. *)
Lemma last_entry_iters vs its :
  last_entry (returned vs ++ iters its) = None \/
  (exists c v, In c prelude /\
     last_entry (returned vs ++ iters its) = Some (c, Returned v)) \/
  exists f v, last_entry (returned vs ++ iters its) = Some (TvDisplay f, Returned v).
Proof.
  destruct its as [|[f v] its _] using rev_ind.
  - cbn [iters flat_map]. rewrite app_nil_r.
    destruct (last_entry_returned vs) as [E|E]; [left | right; left]; exact E.
  - right; right. exists f, v.
    rewrite iters_snoc.
    change [(SensorSnapshot, Returned f); (TvDisplay f, Returned v)]
      with ([(SensorSnapshot, Returned f)] ++ [(TvDisplay f, Returned v)]).
    rewrite !app_assoc. apply last_entry_snoc.
Qed.

Lemma prelude_not_capture c : In c prelude -> c <> SensorSnapshot.
Proof. cbn. intros H E. subst c. repeat destruct H as [H|H]; discriminate || exact H. Qed.

Lemma prelude_entry_quiet c o :
  In c prelude ->
  frames [(c, o)] = [] /\ displayed [(c, o)] = [] /\ iterations [(c, o)] = 0.
Proof.
  cbn. intros H.
  repeat (destruct H as [<-|H]; [repeat split; reflexivity|]).
  destruct H.
Qed.

Lemma last_entry_iters_settled vs its o :
  last_entry (returned vs ++ iters its) <> Some (SensorSnapshot, o).
Proof.
  destruct (last_entry_iters vs its) as [E|[(c & v & Hc & E)|(f & v & E)]];
    rewrite E; try discriminate.
  intros [= -> _]. exact (prelude_not_capture _ Hc eq_refl).
Qed.

Lemma last_entry_iters_returned vs its c e :
  last_entry (returned vs ++ iters its) <> Some (c, Raised e).
Proof.
  destruct (last_entry_iters vs its) as [E|[(c0 & v & Hc & E)|(f & v & E)]];
    rewrite E; discriminate.
Qed.

Create Rewrite HintDb trace_db.

#[local] Hint Rewrite frames_app displayed_app iterations_app config_calls_app
  frames_returned displayed_returned iterations_returned
  frames_iters displayed_iters iterations_iters config_calls_iters
  length_iters length_app length_map app_nil_r : trace_db.

(** *** What a configuration says about its trace *)

(** Either every frame captured has been handed to [tv.display], or
    exactly the last one has not, and then the capture was the last step:
    the clock is [3 * k + 6] after the [k]-th capture. *)
Lemma display_lag n c :
  reach n c ->
  (displayed (trace c) = frames (trace c) /\
   (frames (trace c) = [] \/ 3 * length (frames (trace c)) + 7 <= n) /\
   forall f, last_entry (trace c) <> Some (SensorSnapshot, Returned f))
  \/
  (exists f, last_entry (trace c) = Some (SensorSnapshot, Returned f) /\
             frames (trace c) = displayed (trace c) ++ [f] /\
             n = 3 * length (frames (trace c)) + 6 /\
             st c = Running (resume LOOP f)).
Proof.
  intros [vs H|k vs c0 e H L|vs its H|vs its f H|vs its f v H
         |k vs its e H L|k vs its f e H L]; cbn [trace st].
  - left. autorewrite with trace_db. repeat split; [left; reflexivity|].
    intros f. destruct (last_entry_returned vs) as [E|(c1 & v & Hc & E)];
      rewrite E; [discriminate|].
    intros [= -> _]. exact (prelude_not_capture _ Hc eq_refl).
  - left. rewrite last_entry_snoc. autorewrite with trace_db.
    apply nth_error_In in H.
    destruct (prelude_entry_quiet c0 (Raised e) H) as (-> & -> & _).
    repeat split; [left; reflexivity | discriminate].
  - left. autorewrite with trace_db. repeat split.
    + right. cbn [app length Nat.add]. lia.
    + intros f. apply last_entry_iters_settled.
  - right. exists f. rewrite app_assoc, last_entry_snoc.
    autorewrite with trace_db. cbn. autorewrite with trace_db.
    repeat split. cbn. lia.
  - left. autorewrite with trace_db. repeat split.
    + right. cbn [app length Nat.add]. lia.
    + intros f0. apply last_entry_iters_settled.
  - left. rewrite app_assoc, last_entry_snoc.
    autorewrite with trace_db. cbn. autorewrite with trace_db.
    repeat split; [right; lia | discriminate].
  - left.
    change [(SensorSnapshot, Returned f); (TvDisplay f, Raised e)]
      with ([(SensorSnapshot, Returned f)] ++ [(TvDisplay f, Raised e)]).
    rewrite !app_assoc, last_entry_snoc.
    autorewrite with trace_db. cbn. autorewrite with trace_db.
    repeat split; [right; cbn; lia | discriminate].
Qed.

(** After [8 + 3 * N] steps without an exception the run is at the head of
    the loop, [N] iterations behind it. *)
Lemma clock_head N c :
  reach (8 + 3 * N) c ->
  (forall e, st c <> Uncaught e) ->
  st c = Running LOOP /\ iterations (trace c) = N /\
  length (trace c) = 8 + 2 * N.
Proof.
  remember (8 + 3 * N) as n eqn:En. intros R U.
  destruct R as [vs H|k vs c0 e H L|vs its H|vs its f H|vs its f v H
                |k vs its e H L|k vs its f e H L]; cbn [trace st] in *;
    try lia; try (exfalso; apply (U e); reflexivity).
  autorewrite with trace_db. rewrite length_returned, H.
  repeat split; cbn; lia.
Qed.

Lemma reach_not_finished n c : reach n c -> st c <> Finished.
Proof. intros []; discriminate. Qed.

(** *** A run that an exception stopped *)

Lemma run_uncaught env m tr e :
  run env m (Config tr (Uncaught e)) = Config tr (Uncaught e).
Proof. induction m as [|m IH]; [reflexivity | exact IH]. Qed.

Lemma run_add env n m c : run env (n + m) c = run env m (run env n c).
Proof.
  revert c. induction n as [|n IH]; intros c; [reflexivity|]. apply IH.
Qed.

Lemma returned_entries vs i c o :
  nth_error (returned vs) i = Some (c, o) ->
  In c prelude /\ exists v, o = Returned v.
Proof.
  intros H. apply nth_error_In in H. revert H.
  enum_all vs; cbn; intros H.
  all: repeat (destruct H as [[= <- <-]|H]; [split; [tauto | eexists; reflexivity]|]).
  all: destruct H.
Qed.

(** A call that raised is the last call of the trace. *)
Lemma raised_last tr :
  script_trace tr ->
  forall i c e, nth_error tr i = Some (c, Raised e) -> S i = length tr.
Proof.
  intros [vs H|vs c0 e0 H|vs lt H L] i c e Hi.
  - apply returned_entries in Hi. destruct Hi as (_ & v & [=]).
  - destruct (Nat.lt_ge_cases i (length (returned vs))) as [I|I].
    + rewrite nth_error_app1 in Hi by exact I.
      apply returned_entries in Hi. destruct Hi as (_ & v & [=]).
    + rewrite nth_error_app2 in Hi by exact I. rewrite length_app. cbn [length].
      destruct (i - length (returned vs)) as [|[|j]] eqn:E;
        [lia | discriminate | discriminate].
  - destruct (Nat.lt_ge_cases i (length (returned vs))) as [I|I].
    + rewrite nth_error_app1 in Hi by exact I.
      apply returned_entries in Hi. destruct Hi as (_ & v & [=]).
    + rewrite nth_error_app2 in Hi by exact I. rewrite length_app.
      apply (loop_trace_raised_last lt L) in Hi. lia.
Qed.

(** The exception of the last call is the one that stopped the run. *)
Lemma raised_uncaught n c cl e :
  reach n c -> last_entry (trace c) = Some (cl, Raised e) -> st c = Uncaught e.
Proof.
  intros [vs H|k vs c0 e0 H L|vs its H|vs its f H|vs its f v H
         |k vs its e0 H L|k vs its f e0 H L]; cbn [trace st].
  - destruct (last_entry_returned vs) as [E|(c1 & v & _ & E)];
      rewrite E; discriminate.
  - rewrite last_entry_snoc. intros [= _ <-]. reflexivity.
  - intros E. destruct (last_entry_iters_returned _ _ _ _ E).
  - rewrite app_assoc, last_entry_snoc. discriminate.
  - intros E. destruct (last_entry_iters_returned _ _ _ _ E).
  - rewrite app_assoc, last_entry_snoc. intros [= _ <-]. reflexivity.
  - change [(SensorSnapshot, Returned f); (TvDisplay f, Raised e0)]
      with ([(SensorSnapshot, Returned f)] ++ [(TvDisplay f, Raised e0)]).
    rewrite !app_assoc, last_entry_snoc. intros [= _ <-]. reflexivity.
Qed.

(** *** The environment is asked one call at a time *)

(** A step leaves the trace as it is or adds the answer of the environment
    to one call, asked with the trace so far. *)
Lemma step_trace env c :
  trace (step env c) = trace c \/
  exists cl, trace (step env c) = trace c ++ [(cl, env (trace c) cl)].
Proof.
  destruct c as [tr [t| |e]]; unfold step; cbn [st trace];
    try (left; reflexivity).
  destruct t as [r|t|X ev k]; try (left; reflexivity).
  destruct ev as [cl]. right. exists cl. cbn.
  destruct (env tr cl); reflexivity.
Qed.

Lemma asked_in_turn env n :
  forall i c o, nth_error (trace (exec env n)) i = Some (c, o) ->
    o = env (firstn i (trace (exec env n))) c.
Proof.
  induction n as [|n IH]; intros i c o Hi.
  - destruct i; discriminate.
  - rewrite exec_S in *.
    destruct (step_trace env (exec env n)) as [E|[cl E]]; rewrite E in *.
    + apply IH. exact Hi.
    + destruct (Nat.lt_ge_cases i (length (trace (exec env n)))) as [I|I].
      * rewrite nth_error_app1 in Hi by exact I.
        rewrite firstn_app.
        replace (i - length (trace (exec env n))) with 0 by lia.
        cbn [firstn]. rewrite app_nil_r. apply IH. exact Hi.
      * rewrite nth_error_app2 in Hi by exact I.
        destruct (i - length (trace (exec env n))) as [|[|j]] eqn:D;
          try discriminate.
        injection Hi as <- <-.
        assert (i = length (trace (exec env n))) as -> by lia.
        rewrite firstn_app, firstn_all, Nat.sub_diag. cbn [firstn].
        rewrite app_nil_r. reflexivity.
Qed.

(** *** The calls are determined by the frames *)

Lemma calls_determined tr :
  script_trace tr ->
  calls tr = firstn (length tr) (script_calls (frames tr)).
Proof.
  intros [vs H|vs c e H|vs lt H L].
  - rewrite frames_returned. enum_prefix vs H; reflexivity.
  - pose proof (prelude_index _ _ H) as I.
    rewrite frames_app, frames_returned.
    destruct (prelude_entry_quiet c (Raised e) (nth_error_In _ _ H)) as (-> & _).
    enum_prefix vs I; injection H as <-; reflexivity.
  - rewrite calls_app, frames_app, frames_returned, length_app.
    rewrite (loop_trace_calls lt L), calls_returned, length_returned, H.
    cbn [app]. unfold script_calls. rewrite app_assoc.
    rewrite firstn_app. change (length (imports ++ setup)) with 8.
    change (Nat.min 8 8) with 8.
    replace (8 + length lt - 8) with (length lt) by lia.
    f_equal. change (firstn 8 prelude) with (imports ++ setup).
    rewrite firstn_all2; [reflexivity | cbn; lia].
Qed.

(** The configuration calls of a trace are the first ones of [setup]. *)
Lemma config_calls_prefix tr :
  script_trace tr -> exists k, config_calls tr = firstn k setup.
Proof.
  intros [vs H|vs c e H|vs lt H L].
  - exists (length vs - 3). apply config_calls_returned.
  - pose proof (prelude_index _ _ H) as I.
    exists (length vs - 2).
    enum_prefix vs I; injection H as <-; reflexivity.
  - exists 5. rewrite config_calls_app, config_calls_returned, H.
    rewrite (loop_trace_no_config lt L). reflexivity.
Qed.

Lemma firstn_In {A} (x : A) n l : In x (firstn n l) -> In x l.
Proof.
  intros H. rewrite <- (firstn_skipn n l). apply in_or_app. left. exact H.
Qed.

(** A trace with a capture in it has the whole prelude before it. *)
Lemma loop_entered tr :
  script_trace tr -> In SensorSnapshot (calls tr) ->
  exists vs lt, length vs = 8 /\ loop_trace lt /\ tr = returned vs ++ lt.
Proof.
  intros [vs H|vs c e H|vs lt H L] HIn.
  - exfalso. rewrite calls_returned in HIn. apply firstn_In in HIn.
    exact (prelude_not_capture _ HIn eq_refl).
  - exfalso. rewrite calls_app, calls_returned in HIn.
    apply in_app_or in HIn. destruct HIn as [HIn|[E|[]]].
    + apply firstn_In in HIn. exact (prelude_not_capture _ HIn eq_refl).
    + cbn in E. subst c. apply nth_error_In in H.
      exact (prelude_not_capture _ H eq_refl).
  - exists vs, lt. repeat split; assumption.
Qed.

Lemma calls_prelude vs : length vs = 8 -> calls (returned vs) = imports ++ setup.
Proof. intros H. enum_prefix vs H. reflexivity. Qed.

(** The calls up to the first capture, once the loop is entered. *)
Lemma before_loop_entered vs lt :
  length vs = 8 -> loop_trace lt -> lt <> [] ->
  before_loop (calls (returned vs ++ lt)) = imports ++ setup.
Proof.
  intros H L N. rewrite calls_app, (calls_prelude vs H).
  destruct L; try (exfalso; apply N; reflexivity); reflexivity.
Qed.

(** While no call of the prelude raises, the clock tells how many
    configuration calls were made. *)
Lemma config_calls_clock n c :
  reach n c ->
  (forall cl e, In (cl, Raised e) (trace c) -> ~ In cl prelude) ->
  config_calls (trace c) = firstn (n - 3) setup.
Proof.
  assert (D : forall k, 5 <= k -> firstn k setup = setup).
  { intros k K. apply firstn_all2. cbn. lia. }
  intros [vs H|k vs c0 e H L|vs its H|vs its f H|vs its f v H
         |k vs its e H L|k vs its f e H L] Q; cbn [trace] in *.
  - apply config_calls_returned.
  - exfalso. apply (Q c0 e).
    + apply in_or_app. right. left. reflexivity.
    + eapply nth_error_In. exact H.
  - autorewrite with trace_db. rewrite config_calls_returned, H.
    rewrite !D by lia. reflexivity.
  - autorewrite with trace_db. rewrite config_calls_returned, H.
    rewrite !D by lia. reflexivity.
  - autorewrite with trace_db. rewrite config_calls_returned, H.
    rewrite !D by lia. reflexivity.
  - autorewrite with trace_db. rewrite config_calls_returned, H.
    rewrite !D by lia. reflexivity.
  - autorewrite with trace_db. rewrite config_calls_returned, H.
    rewrite !D by lia. reflexivity.
Qed.

(** *** Captures and displays *)

Lemma loop_trace_prev lt :
  loop_trace lt ->
  forall i img o, nth_error lt i = Some (TvDisplay img, o) ->
    exists j, i = S j /\ nth_error lt j = Some (SensorSnapshot, Returned img).
Proof.
  intros L i img o Hi.
  generalize (loop_trace_alternates lt L i _ _ Hi).
  destruct (Nat.even i) eqn:Ev; [intros [=]|].
  intros (f & [= ->] & Hf).
  destruct i as [|j]; [discriminate Ev|].
  exists j. cbn [Nat.sub] in Hf. rewrite Nat.sub_0_r in Hf. split; [reflexivity | exact Hf].
Qed.

(** A capture or a display in a trace is a call of the loop. *)
Lemma loop_entry tr i c o :
  script_trace tr ->
  nth_error tr i = Some (c, o) ->
  ~ In c prelude ->
  exists vs lt j,
    length vs = 8 /\ loop_trace lt /\ tr = returned vs ++ lt /\
    i = 8 + j /\ nth_error lt j = Some (c, o).
Proof.
  intros [vs H|vs c0 e H|vs lt H L] Hi N.
  - exfalso. apply returned_entries in Hi. tauto.
  - exfalso. destruct (Nat.lt_ge_cases i (length (returned vs))) as [I|I].
    + rewrite nth_error_app1 in Hi by exact I.
      apply returned_entries in Hi. tauto.
    + rewrite nth_error_app2 in Hi by exact I.
      destruct (i - length (returned vs)) as [|[|j]]; try discriminate.
      injection Hi as <- <-. apply N. eapply nth_error_In. exact H.
  - assert (E : length (returned vs) = 8) by (rewrite length_returned, H; reflexivity).
    destruct (Nat.lt_ge_cases i (length (returned vs))) as [I|I].
    + exfalso. rewrite nth_error_app1 in Hi by exact I.
      apply returned_entries in Hi. tauto.
    + rewrite nth_error_app2 in Hi by exact I. rewrite E in *.
      exists vs, lt, (i - 8). repeat split; try assumption. lia.
Qed.

Lemma capture_not_prelude : ~ In SensorSnapshot prelude.
Proof. intros H. exact (prelude_not_capture _ H eq_refl). Qed.

Lemma display_not_prelude img : ~ In (TvDisplay img) prelude.
Proof. cbn. intros H. repeat destruct H as [H|H]; discriminate || exact H. Qed.

(** The frame of the last capture is what the next step displays. *)
Lemma pending_step env n c f :
  reach n c ->
  last_entry (trace c) = Some (SensorSnapshot, Returned f) ->
  exists o, trace (step env c) = trace c ++ [(TvDisplay f, o)].
Proof.
  intros R E. destruct (display_lag n c R) as [(_ & _ & N)|(f' & E' & _ & _ & St)].
  - destruct (N f E).
  - rewrite E in E'. injection E' as <-.
    destruct c as [tr s]. cbn [st trace] in *. subst s.
    rewrite captured_step. destruct (env tr (TvDisplay f)) as [v|e];
      eexists; reflexivity.
Qed.

(** After one more step every frame captured so far has been displayed,
    and nothing else has. *)
Lemma next_displayed env n c :
  reach n c -> displayed (trace (step env c)) = frames (trace c).
Proof.
  intros [vs H|k vs c0 e H L|vs its H|vs its f H|vs its f v H
         |k vs its e H L|k vs its f e H L].
  - destruct (prelude_step vs H) as (c0 & Hc & Hs). rewrite Hs.
    destruct (env _ _) as [v|e]; cbn [trace]; autorewrite with trace_db.
    + reflexivity.
    + apply nth_error_In in Hc.
      destruct (prelude_entry_quiet c0 (Raised e) Hc) as (_ & -> & _).
      reflexivity.
  - change (step env ?c) with c. cbn [trace]. autorewrite with trace_db.
    apply nth_error_In in H.
    destruct (prelude_entry_quiet c0 (Raised e) H) as (-> & -> & _).
    reflexivity.
  - rewrite head_step. destruct (env _ _) as [f|e]; cbn [trace];
      autorewrite with trace_db; reflexivity.
  - rewrite captured_step. destruct (env _ _) as [v|e]; cbn [trace];
      autorewrite with trace_db; cbn; autorewrite with trace_db; reflexivity.
  - rewrite back_step. cbn [trace]. autorewrite with trace_db. reflexivity.
  - change (step env ?c) with c. cbn [trace]. autorewrite with trace_db.
    cbn. autorewrite with trace_db. reflexivity.
  - change (step env ?c) with c. cbn [trace]. autorewrite with trace_db.
    cbn. autorewrite with trace_db. reflexivity.
Qed.

Lemma trace_grows env n i en :
  nth_error (trace (exec env n)) i = Some en ->
  nth_error (trace (exec env (S n))) i = Some en.
Proof.
  intros H. rewrite exec_S.
  destruct (step_trace env (exec env n)) as [E|[cl E]]; rewrite E; [exact H|].
  rewrite nth_error_app1; [exact H|]. apply nth_error_Some. congruence.
Qed.

Lemma loop_part tr : script_trace tr -> loop_trace (skipn 8 tr).
Proof.
  intros [vs H|vs c e H|vs lt H L].
  - enum_prefix vs H; constructor.
  - pose proof (prelude_index _ _ H) as I. enum_prefix vs I; constructor.
  - enum_prefix vs H. exact L.
Qed.

(** *** At the head of the loop *)

(** Without an exception, the run is at the head of the loop after
    [8 + 3 * N] steps, with the prelude and [N] whole iterations behind
    it. *)
Lemma head_summary N c :
  reach (8 + 3 * N) c ->
  (forall e, st c <> Uncaught e) ->
  exists vs its,
    length vs = 8 /\ length its = N /\
    trace c = returned vs ++ iters its /\ st c = Running LOOP.
Proof.
  remember (8 + 3 * N) as n eqn:En. intros R U.
  destruct R as [vs H|k vs c0 e H L|vs its H|vs its f H|vs its f v H
                |k vs its e H L|k vs its f e H L]; cbn [trace st] in *;
    try lia; try (exfalso; apply (U e); reflexivity).
  exists vs, its. repeat split; [exact H | lia].
Qed.

Lemma calls_iters its :
  calls (iters its) =
  flat_map (fun f => [SensorSnapshot; TvDisplay f]) (map fst its).
Proof.
  induction its as [|it its IH]; [reflexivity|].
  change (calls (iters (it :: its)))
    with (SensorSnapshot :: TvDisplay (fst it) :: calls (iters its)).
  rewrite IH. reflexivity.
Qed.

Lemma skipn_prelude vs (lt : list entry) :
  length vs = 8 -> skipn 8 (calls (returned vs ++ lt)) = calls lt.
Proof. intros H. enum_prefix vs H. reflexivity. Qed.

(** A stopped run ends on the call that raised. *)
Lemma uncaught_last n c e :
  reach n c -> st c = Uncaught e ->
  exists tr cl, trace c = tr ++ [(cl, Raised e)].
Proof.
  intros [vs H|k vs c0 e0 H L|vs its H|vs its f H|vs its f v H
         |k vs its e0 H L|k vs its f e0 H L]; cbn [trace st];
    intros St; try discriminate; injection St as <-.
  - exists (returned vs), c0. reflexivity.
  - exists (returned vs ++ iters its), SensorSnapshot.
    rewrite app_assoc. reflexivity.
  - exists (returned vs ++ iters its ++ [(SensorSnapshot, Returned f)]),
      (TvDisplay f).
    rewrite <- !app_assoc. reflexivity.
Qed.

(** ** The script with exceptions raised at the calls *)

(** The script is the same text in both readings. *)
Lemma tv_script_as_written :
  tv_script = script_with invoke /\ display_loop = loop_with invoke /\
  loop_body = body_with invoke.
Proof. repeat split. Qed.

Lemma prelude_stepX vs :
  length vs < 8 ->
  exists c, nth_error prelude (length vs) = Some c /\
    forall env,
      match env (returned vs) c with
      | Returned v =>
          stepX env (ConfigX (returned vs)
            (RunningX (fold_left resumeX vs (observe (script_with attempt))))) =
          ConfigX (returned (vs ++ [v]))
            (RunningX (fold_left resumeX (vs ++ [v])
                         (observe (script_with attempt))))
      | Raised e =>
          exists s,
            stepX env (ConfigX (returned vs)
              (RunningX (fold_left resumeX vs (observe (script_with attempt))))) =
            ConfigX (returned vs ++ [(c, Raised e)]) s /\ stopped e s
      end.
Proof.
  intros H.
  do 8 (try destruct vs as [|? vs]); cbn [length] in H; try lia.
  all: eexists; split; [reflexivity|]; intros env; unfold stepX; cbn.
  all: match goal with
       | |- match ?x with Returned _ => _ | Raised _ => _ end => destruct x
       end.
  all: try reflexivity.
  all: eexists; split; [reflexivity | right; cbn; eexists; reflexivity].
Qed.

Lemma prelude_doneX vs :
  length vs = 8 -> fold_left resumeX vs (observe (script_with attempt)) = LOOPX.
Proof.
  intros H.
  do 9 (try destruct vs as [|? vs]); cbn [length] in H; try lia.
  reflexivity.
Qed.

Lemma head_stepX env tr :
  match env tr SensorSnapshot with
  | Returned f =>
      stepX env (ConfigX tr (RunningX LOOPX)) =
      ConfigX (tr ++ [(SensorSnapshot, Returned f)]) (RunningX (resumeX LOOPX f))
  | Raised e =>
      exists s,
        stepX env (ConfigX tr (RunningX LOOPX)) =
        ConfigX (tr ++ [(SensorSnapshot, Raised e)]) s /\ stopped e s
  end.
Proof.
  unfold stepX; cbn. destruct (env tr SensorSnapshot); [reflexivity|].
  eexists; split; [reflexivity | right; cbn; eexists; reflexivity].
Qed.

Lemma captured_stepX env tr f :
  match env tr (TvDisplay f) with
  | Returned v =>
      stepX env (ConfigX tr (RunningX (resumeX LOOPX f))) =
      ConfigX (tr ++ [(TvDisplay f, Returned v)])
        (RunningX (TauF (loop_with attempt)))
  | Raised e =>
      exists s,
        stepX env (ConfigX tr (RunningX (resumeX LOOPX f))) =
        ConfigX (tr ++ [(TvDisplay f, Raised e)]) s /\ stopped e s
  end.
Proof.
  unfold stepX; cbn. destruct (env tr (TvDisplay f)); [reflexivity|].
  eexists; split; [reflexivity | right; cbn; eexists; reflexivity].
Qed.

Lemma back_stepX env tr :
  stepX env (ConfigX tr (RunningX (TauF (loop_with attempt)))) =
  ConfigX tr (RunningX LOOPX).
Proof. reflexivity. Qed.

Lemma stopped_stepX env tr e s :
  stopped e s -> stepX env (ConfigX tr s) = ConfigX tr (UncaughtX e).
Proof. intros [->|[k ->]]; reflexivity. Qed.

Lemma both_step env c x : both c x -> both (step env c) (stepX env x).
Proof.
  intros [vs H|vs c0 e s H Hs|vs its H|vs its f H|vs its f v H
         |vs its e s H Hs|vs its f e s H Hs].
  - destruct (prelude_step vs H) as (c0 & Hc & Hb).
    destruct (prelude_stepX vs H) as (c1 & Hc1 & Hx).
    assert (c1 = c0) as -> by congruence.
    rewrite Hb. specialize (Hx env).
    destruct (env (returned vs) c0) as [v|e].
    + rewrite Hx. destruct (Nat.eq_dec (length vs) 7) as [E|E].
      * assert (L : length (vs ++ [v]) = 8) by (rewrite length_app; cbn; lia).
        rewrite (prelude_done _ L), (prelude_doneX _ L).
        rewrite <- (app_nil_r (returned _)).
        apply (both_head (vs ++ [v]) [] L).
      * apply both_prelude. rewrite length_app. cbn. lia.
    + destruct Hx as (s & -> & Hs). apply both_prelude_raised; assumption.
  - rewrite (stopped_stepX env _ e s Hs).
    apply both_prelude_raised; [exact H | left; reflexivity].
  - rewrite head_step.
    pose proof (head_stepX env (returned vs ++ iters its)) as Hx.
    destruct (env _ _) as [f|e].
    + rewrite Hx, <- app_assoc. apply both_captured. exact H.
    + destruct Hx as (s & -> & Hs). rewrite <- app_assoc.
      apply both_capture_raised; assumption.
  - rewrite captured_step.
    pose proof (captured_stepX env
      (returned vs ++ iters its ++ [(SensorSnapshot, Returned f)]) f) as Hx.
    destruct (env _ _) as [v|e].
    + rewrite Hx.
      replace (_ ++ [(TvDisplay f, Returned v)])
        with (returned vs ++ iters (its ++ [(f, v)])).
      * apply both_back. exact H.
      * rewrite iters_snoc, <- !app_assoc. reflexivity.
    + destruct Hx as (s & -> & Hs). rewrite <- !app_assoc. cbn [app].
      apply both_display_raised; assumption.
  - rewrite back_step, back_stepX. apply both_head. exact H.
  - rewrite (stopped_stepX env _ e s Hs).
    apply both_capture_raised; [exact H | left; reflexivity].
  - rewrite (stopped_stepX env _ e s Hs).
    apply both_display_raised; [exact H | left; reflexivity].
Qed.

Lemma runX_S env n c : runX env (S n) c = stepX env (runX env n c).
Proof.
  revert c. induction n as [|n IH]; intros c; [reflexivity|].
  apply (IH (stepX env c)).
Qed.

Lemma runX_add env n m c : runX env (n + m) c = runX env m (runX env n c).
Proof.
  revert c. induction n as [|n IH]; intros c; [reflexivity|]. apply IH.
Qed.

Lemma runX_uncaught env m tr e :
  runX env m (ConfigX tr (UncaughtX e)) = ConfigX tr (UncaughtX e).
Proof. induction m as [|m IH]; [reflexivity | exact IH]. Qed.

Lemma both_exec env n : both (exec env n) (execX env n).
Proof.
  induction n as [|n IH].
  - apply (both_prelude []). cbn. lia.
  - rewrite exec_S. unfold execX. rewrite runX_S. apply both_step. exact IH.
Qed.

(** The two readings of the script make the same calls and get the same
    answers. *)
Lemma same_trace env n : traceX (execX env n) = trace (exec env n).
Proof. destruct (both_exec env n); reflexivity. Qed.

Lemma both_uncaught c x e : both c x -> st c = Uncaught e -> stopped e (stX x).
Proof.
  intros [vs H|vs c0 e0 s H Hs|vs its H|vs its f H|vs its f v H
         |vs its e0 s H Hs|vs its f e0 s H Hs]; cbn [st stX];
    intros St; try discriminate; injection St as <-; exact Hs.
Qed.

Lemma both_uncaughtX c x e : both c x -> stX x = UncaughtX e -> st c = Uncaught e.
Proof.
  intros [vs H|vs c0 e0 s H Hs|vs its H|vs its f H|vs its f v H
         |vs its e0 s H Hs|vs its f e0 s H Hs]; cbn [st stX];
    intros St; try discriminate; subst s.
  all: destruct Hs as [[= ->]|[k [=]]]; reflexivity.
Qed.

(** * The claims *)

(** C1.  In every run, against any environment and after any number of
    steps: a capture that returned a frame is followed, as the very next
    call, by [tv.display] on that same frame (at the latest the next step
    makes that call); every call of [tv.display] comes right after the
    capture that returned its argument; the frames displayed are the frames
    captured, in the same order, but for at most the one just captured; and
    one step later the frames displayed are exactly the frames captured.
    And the loop does capture and display: for every [k], unless a call has
    raised by then, after the prelude and [k] iterations exactly [k] frames
    have been captured and [tv.display] has been called on exactly these,
    in order.  So captures returning F1, F2, F3 give display(F1),
    display(F2), display(F3), none dropped, repeated, held back or
    reordered. *)
Theorem display_once_per_capture (env : oracle) (n : nat) :
  (forall i f,
     nth_error (trace (exec env n)) i = Some (SensorSnapshot, Returned f) ->
     exists o,
       nth_error (trace (exec env (S n))) (S i) = Some (TvDisplay f, o))
  /\ (forall i img o,
        nth_error (trace (exec env n)) i = Some (TvDisplay img, o) ->
        exists j, i = S j /\
          nth_error (trace (exec env n)) j = Some (SensorSnapshot, Returned img))
  /\ (exists pending,
        frames (trace (exec env n)) = displayed (trace (exec env n)) ++ pending
        /\ length pending <= 1)
  /\ displayed (trace (exec env (S n))) = frames (trace (exec env n))
  /\ (forall k,
        (forall e, st (exec env (8 + 3 * k)) <> Uncaught e) ->
        length (frames (trace (exec env (8 + 3 * k)))) = k /\
        displayed (trace (exec env (8 + 3 * k))) =
          frames (trace (exec env (8 + 3 * k)))).
Proof.
  pose proof (reach_exec env n) as R.
  pose proof (exec_trace env n) as T.
  split; [|split; [|split; [|split]]].
  - intros i f Hi.
    destruct (loop_entry _ _ _ _ T Hi capture_not_prelude)
      as (vs & lt & j & Hvs & L & E & -> & Hj).
    assert (Len : length (returned vs) = 8)
      by (rewrite length_returned, Hvs; reflexivity).
    destruct (loop_trace_next lt L j f Hj) as [[o Ho]|Last].
    + exists o. apply trace_grows. rewrite E.
      rewrite nth_error_app2 by lia.
      replace (S (8 + j) - length (returned vs)) with (S j) by lia. exact Ho.
    + assert (Hl : last_entry (trace (exec env n)) = Some (SensorSnapshot, Returned f)).
      { rewrite <- Hi. symmetry. apply last_entry_index.
        rewrite E, length_app. lia. }
      destruct (pending_step env n _ f R Hl) as [o Ho].
      exists o. rewrite exec_S, Ho.
      rewrite nth_error_app2 by (rewrite E, length_app; lia).
      replace (S (8 + j) - length (trace (exec env n))) with 0
        by (rewrite E, length_app; lia).
      reflexivity.
  - intros i img o Hi.
    destruct (loop_entry _ _ _ _ T Hi (display_not_prelude img))
      as (vs & lt & j & Hvs & L & E & -> & Hj).
    assert (Len : length (returned vs) = 8)
      by (rewrite length_returned, Hvs; reflexivity).
    destruct (loop_trace_prev lt L j img o Hj) as (j' & -> & Hj').
    exists (8 + j'). split; [lia|].
    rewrite E, nth_error_app2 by lia.
    replace (8 + j' - length (returned vs)) with j' by lia. exact Hj'.
  - destruct (display_lag n _ R) as [(E & _ & _)|(f & _ & E & _)].
    + exists []. rewrite app_nil_r. split; [symmetry; exact E | cbn; lia].
    + exists [f]. split; [exact E | cbn; lia].
  - rewrite exec_S. apply (next_displayed env n). exact R.
  - intros k U.
    destruct (head_summary k _ (reach_exec env (8 + 3 * k)) U)
      as (vs & its & Hvs & Hits & E & _).
    rewrite E. autorewrite with trace_db. cbn [app length Nat.add].
    split; [exact Hits | reflexivity].
Qed.

Lemma display_once_per_capture_witness :
  frames (trace (exec env_frames (8 + 3 * 3))) = [1; 2; 3] /\
  displayed (trace (exec env_frames (8 + 3 * 3))) = [1; 2; 3].
Proof.
  destruct (proj2 (proj2 (proj2 (proj2 (display_once_per_capture env_frames 0)))) 3)
    as [L D].
  - intros e. vm_compute. discriminate.
  - split; [vm_compute; reflexivity|].
    rewrite D. vm_compute. reflexivity.
Defined.

(** The scenario of C1, run: the captures return the frames 1, 2 and 3, and
    [tv.display] is called on 1, 2 and 3, in that order. *)
Example display_three_frames :
  frames (trace (exec env_frames 17)) = [1; 2; 3] /\
  displayed (trace (exec env_frames 17)) = [1; 2; 3] /\
  skipn 8 (calls (trace (exec env_frames 17))) =
    [SensorSnapshot; TvDisplay 1; SensorSnapshot; TvDisplay 2;
     SensorSnapshot; TvDisplay 3].
Proof. repeat split; vm_compute; reflexivity. Qed.

(** C2.  In every run: the configuration calls made so far are the first
    ones of reset, set_pixformat, set_framesize, init, channel, so none is
    made twice or out of order; unless a call has raised, the loop begins at
    step 8, when exactly the three imports and these five calls have been
    made; once the loop has begun (a capture has been called) the calls
    made are the three imports, then exactly these five, once each and in
    that order, then captures and displays only, however long the run goes
    on; and every call the script makes is fixed by its place and by the
    frames captured, so whatever a configuration call returns is dropped,
    and no call reads the configuration back. *)
Theorem configuration_once_before_loop (env : oracle) (n : nat) :
  (exists k,
     config_calls (trace (exec env n)) =
     firstn k [SensorReset; SensorSetPixformat sensor.RGB565;
               SensorSetFramesize sensor.QQVGA; TvInit; TvChannel 8])
  /\ ((forall e, st (exec env 8) <> Uncaught e) ->
      st (exec env 8) = Running LOOP /\
      calls (trace (exec env 8)) =
        [ImportModule "sensor"; ImportModule "image"; ImportModule "tv"] ++
        [SensorReset; SensorSetPixformat sensor.RGB565;
         SensorSetFramesize sensor.QQVGA; TvInit; TvChannel 8])
  /\ (In SensorSnapshot (calls (trace (exec env n))) ->
      config_calls (trace (exec env n)) =
        [SensorReset; SensorSetPixformat sensor.RGB565;
         SensorSetFramesize sensor.QQVGA; TvInit; TvChannel 8]
      /\ exists lp,
        calls (trace (exec env n)) =
          [ImportModule "sensor"; ImportModule "image"; ImportModule "tv"] ++
          [SensorReset; SensorSetPixformat sensor.RGB565;
           SensorSetFramesize sensor.QQVGA; TvInit; TvChannel 8] ++ lp
        /\ Forall (fun c => c = SensorSnapshot \/ exists img, c = TvDisplay img) lp)
  /\ calls (trace (exec env n)) =
     firstn (length (trace (exec env n)))
       (script_calls (frames (trace (exec env n)))).
Proof.
  pose proof (exec_trace env n) as T.
  split; [|split; [|split]].
  - apply config_calls_prefix. exact T.
  - intros U.
    destruct (clock_head 0 _ (reach_exec env 8) U) as (St & _ & Len).
    split; [exact St|].
    rewrite (calls_determined _ (exec_trace env 8)), Len. reflexivity.
  - intros HIn.
    destruct (loop_entered _ T HIn) as (vs & lt & Hvs & L & E).
    rewrite E. split.
    + rewrite config_calls_app, config_calls_returned, Hvs.
      rewrite (loop_trace_no_config lt L). reflexivity.
    + exists (calls lt). split.
      * rewrite calls_app, (calls_prelude vs Hvs), <- app_assoc. reflexivity.
      * apply loop_trace_kinds. exact L.
  - apply calls_determined. exact T.
Qed.

Lemma configuration_once_before_loop_witness :
  config_calls (trace (exec env_ok 30)) =
    [SensorReset; SensorSetPixformat sensor.RGB565;
     SensorSetFramesize sensor.QQVGA; TvInit; TvChannel 8]
  /\ exists lp,
       calls (trace (exec env_ok 30)) =
         [ImportModule "sensor"; ImportModule "image"; ImportModule "tv"] ++
         [SensorReset; SensorSetPixformat sensor.RGB565;
          SensorSetFramesize sensor.QQVGA; TvInit; TvChannel 8] ++ lp
       /\ Forall (fun c => c = SensorSnapshot \/ exists img, c = TvDisplay img) lp.
Proof.
  apply (proj1 (proj2 (proj2 (configuration_once_before_loop env_ok 30)))).
  vm_compute. tauto.
Defined.

(** C3.  The module never reaches its end: whatever the environment does
    and however many steps are taken, the script is not finished.  And for
    every N, unless a call has raised an exception by then, after N
    completed iterations (that is after the 8 calls of the prelude and 3
    steps an iteration) the script is at the head of the loop again, about
    to capture. *)
Theorem loop_never_exits (env : oracle) :
  (forall n, st (exec env n) <> Finished)
  /\ (forall N,
        (forall e, st (exec env (8 + 3 * N)) <> Uncaught e) ->
        st (exec env (8 + 3 * N)) = Running LOOP /\
        iterations (trace (exec env (8 + 3 * N))) = N).
Proof.
  split.
  - intros n. apply (reach_not_finished n). apply reach_exec.
  - intros N U.
    destruct (clock_head N _ (reach_exec env (8 + 3 * N)) U) as (St & It & _).
    split; assumption.
Qed.

Lemma loop_never_exits_witness :
  st (exec env_ok (8 + 3 * 4)) = Running LOOP /\
  iterations (trace (exec env_ok (8 + 3 * 4))) = 4.
Proof.
  apply (proj2 (loop_never_exits env_ok) 4).
  intros e. vm_compute. discriminate.
Defined.

(** An exception raised by a call goes all the way out. *)
Lemma raise_goes_out env n i c e :
  nth_error (traceX (execX env n)) i = Some (c, Raised e) ->
  S i = length (traceX (execX env n)) /\
  forall m,
    stX (execX env (S n + m)) = UncaughtX e /\
    traceX (execX env (S n + m)) = traceX (execX env n).
Proof.
  intros Hi. rewrite same_trace in *.
  pose proof (raised_last _ (exec_trace env n) i c e Hi) as L.
  split; [exact L|].
  assert (U : st (exec env n) = Uncaught e).
  { apply (raised_uncaught n _ c e (reach_exec env n)).
    rewrite <- (last_entry_index _ i L). exact Hi. }
  pose proof (both_uncaught _ _ e (both_exec env n) U) as Hs.
  intros m. rewrite <- (same_trace env n).
  change (S n + m) with (S (n + m)).
  replace (S (n + m)) with (n + S m) by lia.
  unfold execX. rewrite runX_add.
  fold (execX env n). destruct (execX env n) as [tr s]. cbn [stX traceX] in *.
  cbn [runX]. rewrite (stopped_stepX env tr e s Hs), runX_uncaught.
  split; reflexivity.
Qed.

(** C4.  The script catches nothing.  It is read here with exceptions
    raised at the calls, where a handler around a call would intercept
    them; in this reading it makes the same calls as before.  When a call
    raises (a capture, a display, or any other call), that call is the last
    the script makes, and from the next step on the run has ended on that
    very exception, uncaught, with nothing added to the trace: no later
    call, no report, no retry.  And the captures and displays are exposed
    to it: at the head of the loop, after any number of iterations without
    an exception, if [sensor.snapshot] raises the run ends on that
    exception, and if it returns a frame and [tv.display] raises on that
    frame the run ends on that one. *)
Theorem uncaught_exception_propagates (env : oracle) :
  (forall n, traceX (execX env n) = trace (exec env n))
  /\ (forall n i c e,
        nth_error (traceX (execX env n)) i = Some (c, Raised e) ->
        S i = length (traceX (execX env n)) /\
        forall m,
          stX (execX env (S n + m)) = UncaughtX e /\
          traceX (execX env (S n + m)) = traceX (execX env n))
  /\ (forall k e,
        (forall c e', ~ In (c, Raised e') (traceX (execX env (8 + 3 * k)))) ->
        (env (traceX (execX env (8 + 3 * k))) SensorSnapshot = Raised e ->
         stX (execX env (8 + 3 * k + 2)) = UncaughtX e)
        /\ (forall f,
              env (traceX (execX env (8 + 3 * k))) SensorSnapshot = Returned f ->
              env (traceX (execX env (8 + 3 * k)) ++ [(SensorSnapshot, Returned f)])
                (TvDisplay f) = Raised e ->
              stX (execX env (8 + 3 * k + 3)) = UncaughtX e)).
Proof.
  split; [|split].
  - apply same_trace.
  - apply raise_goes_out.
  - intros k e NR.
    assert (U : forall e', st (exec env (8 + 3 * k)) <> Uncaught e').
    { intros e' St.
      destruct (uncaught_last _ _ e' (reach_exec env (8 + 3 * k)) St)
        as (tr & c & E).
      apply (NR c e'). rewrite same_trace, E.
      apply in_or_app. right. left. reflexivity. }
    destruct (head_summary k _ (reach_exec env (8 + 3 * k)) U)
      as (_ & _ & _ & _ & _ & St).
    rewrite same_trace.
    destruct (exec env (8 + 3 * k)) as [tr s] eqn:Ex. cbn [st trace] in *.
    subst s. split.
    + intros A.
      assert (E1 : exec env (S (8 + 3 * k)) =
                   Config (tr ++ [(SensorSnapshot, Raised e)]) (Uncaught e)).
      { rewrite exec_S, Ex, head_step, A. reflexivity. }
      assert (Hi : nth_error (traceX (execX env (S (8 + 3 * k)))) (length tr) =
                   Some (SensorSnapshot, Raised e)).
      { rewrite same_trace, E1. cbn [trace].
        rewrite nth_error_app2, Nat.sub_diag by lia. reflexivity. }
      destruct (raise_goes_out env _ _ _ _ Hi) as (_ & G).
      replace (8 + 3 * k + 2) with (S (S (8 + 3 * k)) + 0) by lia.
      apply G.
    + intros f A B.
      assert (E2 : exec env (S (S (8 + 3 * k))) =
                   Config ((tr ++ [(SensorSnapshot, Returned f)]) ++
                           [(TvDisplay f, Raised e)]) (Uncaught e)).
      { rewrite !exec_S, Ex, head_step, A, captured_step, B. reflexivity. }
      assert (Hi : nth_error (traceX (execX env (S (S (8 + 3 * k)))))
                     (length (tr ++ [(SensorSnapshot, Returned f)])) =
                   Some (TvDisplay f, Raised e)).
      { rewrite same_trace, E2. cbn [trace].
        rewrite nth_error_app2, Nat.sub_diag by lia. reflexivity. }
      destruct (raise_goes_out env _ _ _ _ Hi) as (_ & G).
      replace (8 + 3 * k + 3) with (S (S (S (8 + 3 * k))) + 0) by lia.
      apply G.
Qed.

Lemma uncaught_exception_propagates_witness :
  (S 12 = length (traceX (execX env_capture_fails 15)) /\
   forall m,
     stX (execX env_capture_fails (S 15 + m)) = UncaughtX 102 /\
     traceX (execX env_capture_fails (S 15 + m)) =
       traceX (execX env_capture_fails 15))
  /\ stX (execX env_display_fails (8 + 3 * 1 + 3)) = UncaughtX 103.
Proof.
  split.
  - apply (proj1 (proj2 (uncaught_exception_propagates env_capture_fails))
             15 12 SensorSnapshot 102).
    vm_compute. reflexivity.
  - apply (proj2 (proj2 (proj2 (uncaught_exception_propagates env_display_fails))
                    1 103
                    ltac:(vm_compute; intros c e' H;
                          repeat (destruct H as [[=]|H]); exact H))
             2).
    + vm_compute. reflexivity.
    + vm_compute. reflexivity.
Defined.

(** What C4 rules out.  With a handler around it the same script would
    not let the exception through: run against the same environment, the
    guarded script comes to its end instead. *)
Example handler_would_catch :
  stX (execX env_capture_fails 20) = UncaughtX 102 /\
  stX (runX env_capture_fails 40
         (ConfigX [] (RunningX (observe guarded_script)))) = FinishedX.
Proof. split; vm_compute; reflexivity. Qed.

(** C5.  One call at a time, one iteration after the other.  In every run
    the first eight calls are calls of the prelude; from then on the calls
    alternate: at even places a capture, at odd places the display of the
    frame the capture just before returned.  Each call is answered by the
    environment on exactly the calls completed before it: a call is made
    only when the one before has come back.  And the iterations do run, one
    whole iteration after the other: for every [k], unless a call has raised
    by then, after the prelude and [k] iterations the calls of the loop are
    exactly capture, display of the first frame, capture, display of the
    second frame, and so on for the [k] frames captured. *)
Theorem calls_alternate (env : oracle) (n : nat) :
  (exists k,
     calls (firstn 8 (trace (exec env n))) = firstn k (imports ++ setup))
  /\ (forall i c o,
        nth_error (skipn 8 (trace (exec env n))) i = Some (c, o) ->
        if Nat.even i then c = SensorSnapshot
        else exists f,
          c = TvDisplay f /\
          nth_error (skipn 8 (trace (exec env n))) (i - 1) =
            Some (SensorSnapshot, Returned f))
  /\ (forall i c o,
        nth_error (trace (exec env n)) i = Some (c, o) ->
        o = env (firstn i (trace (exec env n))) c)
  /\ (forall k,
        (forall e, st (exec env (8 + 3 * k)) <> Uncaught e) ->
        length (frames (trace (exec env (8 + 3 * k)))) = k /\
        skipn 8 (calls (trace (exec env (8 + 3 * k)))) =
          flat_map (fun f => [SensorSnapshot; TvDisplay f])
            (frames (trace (exec env (8 + 3 * k))))).
Proof.
  pose proof (exec_trace env n) as T.
  split; [|split; [|split]].
  - destruct T as [vs H|vs c e H|vs lt H L].
    + exists (length vs). enum_prefix vs H; reflexivity.
    + pose proof (prelude_index _ _ H) as I. exists (S (length vs)).
      enum_prefix vs I; injection H as <-; reflexivity.
    + exists 8. enum_prefix vs H. reflexivity.
  - apply loop_trace_alternates. apply loop_part. exact T.
  - apply asked_in_turn.
  - intros k U.
    destruct (head_summary k _ (reach_exec env (8 + 3 * k)) U)
      as (vs & its & Hvs & Hits & E & _).
    rewrite E, (skipn_prelude vs _ Hvs), calls_iters.
    autorewrite with trace_db. cbn [app length Nat.add].
    split; [exact Hits | reflexivity].
Qed.

Lemma calls_alternate_witness :
  length (frames (trace (exec env_frames (8 + 3 * 3)))) = 3 /\
  skipn 8 (calls (trace (exec env_frames (8 + 3 * 3)))) =
    flat_map (fun f => [SensorSnapshot; TvDisplay f])
      (frames (trace (exec env_frames (8 + 3 * 3)))).
Proof.
  apply (proj2 (proj2 (proj2 (calls_alternate env_frames 0))) 3).
  intros e. vm_compute. discriminate.
Defined.

(** The witness of C5, evaluated: three iterations, six calls. *)
Example three_iterations_alternate :
  skipn 8 (calls (trace (exec env_frames (8 + 3 * 3)))) =
    [SensorSnapshot; TvDisplay 1; SensorSnapshot; TvDisplay 2;
     SensorSnapshot; TvDisplay 3].
Proof. vm_compute. reflexivity. Qed.

(** C6.  At most one frame is in flight.  In every run the frames captured
    are the frames displayed plus at most one; a frame is pending only when
    its capture is the last call made, and then the next step hands it to
    [tv.display]; and once the prelude is over, what is left of the program
    is the loop itself, the same term whatever frames went through it, or
    the loop waiting to display the frame just captured.  The script keeps
    no frame from one iteration to the next and no history of frames. *)
Theorem one_frame_in_flight (env : oracle) (n : nat) :
  (exists pending,
     frames (trace (exec env n)) = displayed (trace (exec env n)) ++ pending
     /\ length pending <= 1)
  /\ (forall tr f,
        trace (exec env n) = tr ++ [(SensorSnapshot, Returned f)] ->
        frames (trace (exec env n)) = displayed (trace (exec env n)) ++ [f]
        /\ st (exec env n) = Running (resume LOOP f)
        /\ exists o,
             trace (exec env (S n)) = trace (exec env n) ++ [(TvDisplay f, o)])
  /\ ((forall tr f, trace (exec env n) <> tr ++ [(SensorSnapshot, Returned f)]) ->
      frames (trace (exec env n)) = displayed (trace (exec env n)))
  /\ (forall t,
        st (exec env n) = Running t -> 8 <= length (trace (exec env n)) ->
        t = LOOP \/ t = TauF display_loop \/
        exists tr f,
          trace (exec env n) = tr ++ [(SensorSnapshot, Returned f)] /\
          t = resume LOOP f).
Proof.
  pose proof (reach_exec env n) as R.
  split; [|split; [|split]].
  - destruct (display_lag n _ R) as [(E & _ & _)|(f & _ & E & _)].
    + exists []. rewrite app_nil_r. split; [symmetry; exact E | cbn; lia].
    + exists [f]. split; [exact E | cbn; lia].
  - intros tr f E.
    assert (Hl : last_entry (trace (exec env n)) = Some (SensorSnapshot, Returned f))
      by (rewrite E; apply last_entry_snoc).
    destruct (display_lag n _ R) as [(_ & _ & N)|(f' & E' & F & _ & St)].
    + destruct (N f Hl).
    + rewrite Hl in E'. injection E' as <-.
      repeat split; [exact F | exact St |].
      rewrite exec_S. apply (pending_step env n). exact R. exact Hl.
  - intros N.
    destruct (display_lag n _ R) as [(E & _ & _)|(f & E & _)].
    + symmetry. exact E.
    + exfalso. unfold last_entry in E.
      destruct (rev (trace (exec env n))) as [|en r] eqn:Er; [discriminate|].
      injection E as ->. apply (N (rev r) f).
      rewrite <- (rev_involutive (trace (exec env n))), Er. reflexivity.
  - intros t St Len. revert St Len.
    destruct R as [vs H|k vs c0 e H L|vs its H|vs its f H|vs its f v H
                  |k vs its e H L|k vs its f e H L]; cbn [st trace];
      intros St Len; try discriminate.
    + rewrite length_returned in Len. lia.
    + injection St as <-. left. reflexivity.
    + injection St as <-. right; right.
      exists (returned vs ++ iters its), f.
      rewrite app_assoc. split; reflexivity.
    + injection St as <-. right; left. reflexivity.
Qed.

Lemma one_frame_in_flight_witness :
  frames (trace (exec env_ok 12)) = displayed (trace (exec env_ok 12)) ++ [10]
  /\ st (exec env_ok 12) = Running (resume LOOP 10)
  /\ exists o,
       trace (exec env_ok 13) = trace (exec env_ok 12) ++ [(TvDisplay 10, o)].
Proof.
  apply (proj1 (proj2 (one_frame_in_flight env_ok 12))
           (firstn 10 (trace (exec env_ok 12)))).
  vm_compute. reflexivity.
Defined.

(** C7, as the specification states it, fails: in a run that enters the
    loop, the calls made before the first capture are the three imports and
    then five calls, all five of them configuration calls ([sensor.reset]
    and [tv.init] are made as well as the three calls that pass a value).
    Five configuration calls precede the loop, not three. *)
Lemma five_not_three_configuration_calls :
  In SensorSnapshot (calls (trace (exec env_ok 20)))
  /\ before_loop (calls (trace (exec env_ok 20))) =
       [ImportModule "sensor"; ImportModule "image"; ImportModule "tv";
        SensorReset; SensorSetPixformat sensor.RGB565;
        SensorSetFramesize sensor.QQVGA; TvInit; TvChannel 8]
  /\ filter is_config (before_loop (calls (trace (exec env_ok 20)))) =
       [SensorReset; SensorSetPixformat sensor.RGB565;
        SensorSetFramesize sensor.QQVGA; TvInit; TvChannel 8]
  /\ length (filter is_config (before_loop (calls (trace (exec env_ok 20)))))
     <> 3.
Proof.
  split; [|split; [|split]].
  - vm_compute. tauto.
  - vm_compute. reflexivity.
  - vm_compute. reflexivity.
  - vm_compute. discriminate.
Qed.

(** C7, amended.  After its imports the script is five configuration
    calls followed by the display loop: in every run that enters the loop,
    the calls before the first capture are the three imports and the five
    configuration calls, so exactly five configuration calls precede the
    loop; and the calls of any run are the first ones of: the imports, the
    five configuration calls, then for every frame captured the capture and
    the display of that frame. *)
Theorem five_configuration_calls_then_loop (env : oracle) (n : nat) :
  In SensorSnapshot (calls (trace (exec env n))) ->
  before_loop (calls (trace (exec env n))) =
    [ImportModule "sensor"; ImportModule "image"; ImportModule "tv";
     SensorReset; SensorSetPixformat sensor.RGB565;
     SensorSetFramesize sensor.QQVGA; TvInit; TvChannel 8]
  /\ length (filter is_config (before_loop (calls (trace (exec env n))))) = 5
  /\ calls (trace (exec env n)) =
     firstn (length (trace (exec env n)))
       ([ImportModule "sensor"; ImportModule "image"; ImportModule "tv"] ++
        [SensorReset; SensorSetPixformat sensor.RGB565;
         SensorSetFramesize sensor.QQVGA; TvInit; TvChannel 8] ++
        flat_map (fun f => [SensorSnapshot; TvDisplay f])
          (frames (trace (exec env n))) ++ [SensorSnapshot]).
Proof.
  intros HIn.
  pose proof (exec_trace env n) as T.
  destruct (loop_entered _ T HIn) as (vs & lt & Hvs & L & E).
  assert (B : before_loop (calls (trace (exec env n))) = imports ++ setup).
  { rewrite E. apply before_loop_entered; [exact Hvs | exact L |].
    intros ->. rewrite E, app_nil_r, calls_returned in HIn.
    apply firstn_In in HIn. exact (capture_not_prelude HIn). }
  split; [exact B | split].
  - rewrite B. reflexivity.
  - apply calls_determined. exact T.
Qed.

Lemma five_configuration_calls_then_loop_witness :
  before_loop (calls (trace (exec env_ok 20))) =
    [ImportModule "sensor"; ImportModule "image"; ImportModule "tv";
     SensorReset; SensorSetPixformat sensor.RGB565;
     SensorSetFramesize sensor.QQVGA; TvInit; TvChannel 8]
  /\ length (filter is_config (before_loop (calls (trace (exec env_ok 20))))) = 5
  /\ calls (trace (exec env_ok 20)) =
     firstn (length (trace (exec env_ok 20)))
       ([ImportModule "sensor"; ImportModule "image"; ImportModule "tv"] ++
        [SensorReset; SensorSetPixformat sensor.RGB565;
         SensorSetFramesize sensor.QQVGA; TvInit; TvChannel 8] ++
        flat_map (fun f => [SensorSnapshot; TvDisplay f])
          (frames (trace (exec env_ok 20))) ++ [SensorSnapshot]).
Proof.
  apply (five_configuration_calls_then_loop env_ok 20).
  vm_compute. tauto.
Defined.

(** The three steps of an iteration, from the head of the loop. *)
Lemma iteration env tr :
  run env 3 (Config tr (Running LOOP)) =
  match env tr SensorSnapshot with
  | Raised e => Config (tr ++ [(SensorSnapshot, Raised e)]) (Uncaught e)
  | Returned f =>
      match env (tr ++ [(SensorSnapshot, Returned f)]) (TvDisplay f) with
      | Raised e =>
          Config (tr ++ [(SensorSnapshot, Returned f); (TvDisplay f, Raised e)])
            (Uncaught e)
      | Returned v =>
          Config (tr ++ [(SensorSnapshot, Returned f); (TvDisplay f, Returned v)])
            (Running LOOP)
      end
  end.
Proof.
  cbn [run]. rewrite head_step.
  destruct (env tr SensorSnapshot) as [f|e]; [|reflexivity].
  rewrite captured_step.
  destruct (env _ (TvDisplay f)) as [v|e]; rewrite <- app_assoc; reflexivity.
Qed.

(** C8.  An iteration leaves nothing behind but its calls.  From the head
    of the loop, in any run, three steps later: if both calls return, the
    trace has grown by the capture and by the display of its frame, and the
    script is at the head of the same loop again, whatever the frame was
    and whatever [tv.display] returned (its value is dropped); if one of the
    two raises, the run stops there. *)
Theorem iteration_leaves_no_state (env : oracle) (n : nat) :
  st (exec env n) = Running LOOP ->
  exec env (n + 3) =
  match env (trace (exec env n)) SensorSnapshot with
  | Raised e =>
      Config (trace (exec env n) ++ [(SensorSnapshot, Raised e)]) (Uncaught e)
  | Returned f =>
      match
        env (trace (exec env n) ++ [(SensorSnapshot, Returned f)]) (TvDisplay f)
      with
      | Raised e =>
          Config (trace (exec env n) ++
                  [(SensorSnapshot, Returned f); (TvDisplay f, Raised e)])
            (Uncaught e)
      | Returned v =>
          Config (trace (exec env n) ++
                  [(SensorSnapshot, Returned f); (TvDisplay f, Returned v)])
            (Running LOOP)
      end
  end.
Proof.
  intros St. unfold exec at 1. rewrite run_add. fold (exec env n).
  destruct (exec env n) as [tr s]. cbn [st trace] in *. subst s.
  apply iteration.
Qed.

Lemma iteration_leaves_no_state_witness :
  exec env_ok (8 + 3) =
  Config (trace (exec env_ok 8) ++
          [(SensorSnapshot, Returned 8); (TvDisplay 8, Returned 9)])
    (Running LOOP).
Proof.
  apply (iteration_leaves_no_state env_ok 8). reflexivity.
Defined.

Lemma config_call_in_setup tr c :
  script_trace tr -> is_config c = true -> In c (calls tr) -> In c setup.
Proof.
  intros T C HIn.
  destruct (config_calls_prefix tr T) as [k E].
  apply (firstn_In c k). rewrite <- E.
  apply filter_In. split; assumption.
Qed.

Lemma firstn_setup_nodup k : NoDup (firstn k setup).
Proof.
  do 6 (try destruct k as [|k]); cbn.
  all: repeat (constructor; [cbn; intuition discriminate|]).
  all: constructor.
Qed.

(** C9.  The values of the setup calls.  In every run, whenever
    [sensor.set_pixformat] is called its argument is [sensor.RGB565],
    whenever [sensor.set_framesize] is called its argument is
    [sensor.QQVGA], and whenever [tv.channel] is called its argument is 8;
    no configuration call is made twice; and once the loop has begun the
    three calls have all been made, with these arguments. *)
Theorem setup_arguments (env : oracle) (n : nat) :
  (forall p, In (SensorSetPixformat p) (calls (trace (exec env n))) ->
             p = sensor.RGB565)
  /\ (forall s, In (SensorSetFramesize s) (calls (trace (exec env n))) ->
                s = sensor.QQVGA)
  /\ (forall z, In (TvChannel z) (calls (trace (exec env n))) -> z = 8%Z)
  /\ NoDup (config_calls (trace (exec env n)))
  /\ (In SensorSnapshot (calls (trace (exec env n))) ->
      In (SensorSetPixformat sensor.RGB565) (calls (trace (exec env n))) /\
      In (SensorSetFramesize sensor.QQVGA) (calls (trace (exec env n))) /\
      In (TvChannel 8) (calls (trace (exec env n)))).
Proof.
  pose proof (exec_trace env n) as T.
  split; [|split; [|split; [|split]]].
  - intros p HIn. apply (config_call_in_setup _ (SensorSetPixformat p) T eq_refl) in HIn.
    cbn in HIn. repeat destruct HIn as [HIn|HIn]; try discriminate;
      try (injection HIn as <-; reflexivity). destruct HIn.
  - intros s HIn. apply (config_call_in_setup _ (SensorSetFramesize s) T eq_refl) in HIn.
    cbn in HIn. repeat destruct HIn as [HIn|HIn]; try discriminate;
      try (injection HIn as <-; reflexivity). destruct HIn.
  - intros z HIn. apply (config_call_in_setup _ (TvChannel z) T eq_refl) in HIn.
    cbn in HIn. repeat destruct HIn as [HIn|HIn]; try discriminate;
      try (injection HIn as <-; reflexivity). destruct HIn.
  - destruct (config_calls_prefix _ T) as [k E]. rewrite E.
    apply firstn_setup_nodup.
  - intros HIn.
    destruct (loop_entered _ T HIn) as (vs & lt & Hvs & L & E).
    rewrite E, calls_app, (calls_prelude vs Hvs).
    repeat split; apply in_or_app; left; cbn; tauto.
Qed.

Lemma setup_arguments_witness :
  In (SensorSetPixformat sensor.RGB565) (calls (trace (exec env_ok 9))) /\
  In (SensorSetFramesize sensor.QQVGA) (calls (trace (exec env_ok 9))) /\
  In (TvChannel 8) (calls (trace (exec env_ok 9))).
Proof.
  apply (proj2 (proj2 (proj2 (proj2 (setup_arguments env_ok 9))))).
  vm_compute. tauto.
Defined.

(** C10, as stated, fails: a run whose sensor is missing and a run whose
    TV shield is missing both stop before any capture, so the frames
    returned are the same in both (none), yet the first made one setup call
    and the second four. *)
Lemma same_frames_other_setup_calls :
  frames (trace (exec env_no_sensor 20)) = frames (trace (exec env_no_shield 20))
  /\ st (exec env_no_sensor 20) = Uncaught 100
  /\ st (exec env_no_shield 20) = Uncaught 101
  /\ config_calls (trace (exec env_no_sensor 20)) = [SensorReset]
  /\ config_calls (trace (exec env_no_shield 20)) =
       [SensorReset; SensorSetPixformat sensor.RGB565;
        SensorSetFramesize sensor.QQVGA; TvInit]
  /\ config_calls (trace (exec env_no_sensor 20)) <>
     config_calls (trace (exec env_no_shield 20)).
Proof.
  repeat split; try (vm_compute; reflexivity).
  vm_compute. discriminate.
Qed.

(** C10, amended.  Take two runs, against any two environments, at the
    same number of steps.  If the captures returned the same frames in
    both, then [tv.display] was called on the same arguments in both; and if
    moreover no import and no setup call raised in either, the setup calls
    made are the same in both.  The script reads nothing else: what the
    other calls return has no part in it. *)
Theorem deterministic_in_frames (env1 env2 : oracle) (n : nat) :
  frames (trace (exec env1 n)) = frames (trace (exec env2 n)) ->
  displayed (trace (exec env1 n)) = displayed (trace (exec env2 n))
  /\ ((forall c e,
         In (c, Raised e) (trace (exec env1 n) ++ trace (exec env2 n)) ->
         ~ In c (imports ++ setup)) ->
      config_calls (trace (exec env1 n)) = config_calls (trace (exec env2 n))).
Proof.
  intros F.
  pose proof (reach_exec env1 n) as R1.
  pose proof (reach_exec env2 n) as R2.
  split.
  - destruct (display_lag n _ R1) as [(D1 & K1 & _)|(f1 & _ & D1 & K1 & _)];
      destruct (display_lag n _ R2) as [(D2 & K2 & _)|(f2 & _ & D2 & K2 & _)].
    + congruence.
    + exfalso. rewrite F in K1. destruct K1 as [K1|K1]; [|lia].
      rewrite K1 in D2. destruct (displayed (trace (exec env2 n))); discriminate.
    + exfalso. rewrite <- F in K2. destruct K2 as [K2|K2]; [|lia].
      rewrite K2 in D1. destruct (displayed (trace (exec env1 n))); discriminate.
    + rewrite D1, D2 in F. apply app_inj_tail in F. tauto.
  - intros Q.
    rewrite (config_calls_clock n _ R1), (config_calls_clock n _ R2);
      [reflexivity| |].
    + intros cl e HIn. apply (Q cl e). apply in_or_app. right. exact HIn.
    + intros cl e HIn. apply (Q cl e). apply in_or_app. left. exact HIn.
Qed.

Lemma deterministic_in_frames_witness :
  displayed (trace (exec env_display_fails 20)) =
  displayed (trace (exec env_capture_fails 20))
  /\ config_calls (trace (exec env_display_fails 20)) =
     config_calls (trace (exec env_capture_fails 20)).
Proof.
  destruct (deterministic_in_frames env_display_fails env_capture_fails 20)
    as [D Q].
  - vm_compute. reflexivity.
  - split; [exact D | apply Q].
    vm_compute. intros c e H.
    repeat (destruct H as [[= <- <-]|H] || destruct H as [[=]|H]);
      [intuition discriminate .. | destruct H].
Defined.

(** * Further properties of the script *)

(** ** A call of the prelude that raises *)

Lemma loop_trace_entries lt c o :
  loop_trace lt -> In (c, o) lt -> ~ In c prelude.
Proof.
  intros L HIn.
  assert (K : c = SensorSnapshot \/ exists img, c = TvDisplay img).
  { pose proof (loop_trace_kinds lt L) as F.
    rewrite Forall_forall in F. apply F.
    change c with (fst (c, o)). apply in_map. exact HIn. }
  destruct K as [->|[img ->]];
    [apply capture_not_prelude | apply display_not_prelude].
Qed.

Lemma returned_all_returned vs c e : ~ In (c, Raised e) (returned vs).
Proof.
  intros HIn. apply In_nth_error in HIn. destruct HIn as [i Hi].
  apply returned_entries in Hi. destruct Hi as (_ & v & [=]).
Qed.

(** When a call of the prelude raises, the calls made are the calls of the
    prelude up to that one. *)
Lemma prelude_raise_shape tr c e :
  script_trace tr -> In (c, Raised e) tr -> In c prelude ->
  exists k, nth_error prelude k = Some c /\ calls tr = firstn (S k) prelude.
Proof.
  intros [vs H|vs c0 e0 H|vs lt H L] HIn P.
  - destruct (returned_all_returned _ _ _ HIn).
  - apply in_app_or in HIn. destruct HIn as [HIn|[[= <- <-]|[]]].
    + destruct (returned_all_returned _ _ _ HIn).
    + exists (length vs). split; [exact H|].
      pose proof (prelude_index _ _ H) as I.
      enum_prefix vs I; injection H as <-; reflexivity.
  - apply in_app_or in HIn. destruct HIn as [HIn|HIn].
    + destruct (returned_all_returned _ _ _ HIn).
    + destruct (loop_trace_entries lt c _ L HIn P).
Qed.

(** A trace of prelude calls only has no capture and no display in it. *)
Lemma prelude_calls_quiet tr :
  (forall c, In c (calls tr) -> In c prelude) ->
  frames tr = [] /\ displayed tr = [] /\ ~ In SensorSnapshot (calls tr).
Proof.
  intros P. split; [|split].
  - induction tr as [|[c o] tr IH]; [reflexivity|].
    change ((c, o) :: tr) with ([(c, o)] ++ tr). rewrite frames_app.
    destruct (prelude_entry_quiet c o (P c (or_introl eq_refl))) as (-> & _).
    apply IH. intros c' H. apply P. right. exact H.
  - induction tr as [|[c o] tr IH]; [reflexivity|].
    change ((c, o) :: tr) with ([(c, o)] ++ tr). rewrite displayed_app.
    destruct (prelude_entry_quiet c o (P c (or_introl eq_refl))) as (_ & -> & _).
    apply IH. intros c' H. apply P. right. exact H.
  - intros H. exact (capture_not_prelude (P _ H)).
Qed.

(** X1.  An import that fails stops the script before it touches the
    hardware: when [import sensor], [import image] or [import tv] raises,
    the calls made are imports only, up to the failing one; no
    configuration call, no capture and no display is ever made. *)
Theorem failed_import_stops_before_hardware
  (env : oracle) (n : nat) (name : string) (e : obj) :
  In (ImportModule name, Raised e) (trace (exec env n)) ->
  (exists k,
     nth_error [ImportModule "sensor"; ImportModule "image"; ImportModule "tv"] k
       = Some (ImportModule name) /\
     calls (trace (exec env n)) =
       firstn (S k)
         [ImportModule "sensor"; ImportModule "image"; ImportModule "tv"])
  /\ config_calls (trace (exec env n)) = []
  /\ frames (trace (exec env n)) = []
  /\ displayed (trace (exec env n)) = [].
Proof.
  intros HIn.
  pose proof (exec_trace env n) as T.
  assert (P : In (ImportModule name) prelude).
  { destruct T as [vs H|vs c0 e0 H|vs lt H L].
    - destruct (returned_all_returned _ _ _ HIn).
    - apply in_app_or in HIn. destruct HIn as [HIn|[[= <- <-]|[]]].
      + destruct (returned_all_returned _ _ _ HIn).
      + eapply nth_error_In. exact H.
    - apply in_app_or in HIn. destruct HIn as [HIn|HIn].
      + destruct (returned_all_returned _ _ _ HIn).
      + exfalso. pose proof (loop_trace_kinds lt L) as F.
        rewrite Forall_forall in F.
        destruct (F (ImportModule name)) as [[=]|[img [=]]].
        change (ImportModule name) with (fst (ImportModule name, Raised e)).
        apply in_map. exact HIn. }
  destruct (prelude_raise_shape _ _ _ T HIn P) as (k & Hk & C).
  assert (K : k < 3).
  { do 3 (destruct k as [|k]; [lia|]).
    exfalso. do 5 (destruct k as [|k]; [discriminate Hk|]).
    destruct k; discriminate Hk. }
  assert (Q : forall c, In c (calls (trace (exec env n))) -> In c prelude).
  { intros c H. rewrite C in H. apply firstn_In in H. exact H. }
  destruct (prelude_calls_quiet _ Q) as (F & D & _).
  repeat split; try assumption.
  - exists k. split.
    + do 3 (destruct k as [|k]; [exact Hk|]). lia.
    + rewrite C. do 3 (destruct k as [|k]; [reflexivity|]). lia.
  - unfold config_calls. rewrite C.
    do 3 (destruct k as [|k]; [reflexivity|]). lia.
Qed.

Lemma failed_import_stops_before_hardware_witness :
  (exists k,
     nth_error [ImportModule "sensor"; ImportModule "image"; ImportModule "tv"] k
       = Some (ImportModule "tv") /\
     calls (trace (exec env_no_tv_module 20)) =
       firstn (S k)
         [ImportModule "sensor"; ImportModule "image"; ImportModule "tv"])
  /\ config_calls (trace (exec env_no_tv_module 20)) = []
  /\ frames (trace (exec env_no_tv_module 20)) = []
  /\ displayed (trace (exec env_no_tv_module 20)) = [].
Proof.
  apply (failed_import_stops_before_hardware env_no_tv_module 20 "tv" 104).
  vm_compute. tauto.
Defined.

(** X2.  A setup call that fails keeps the loop from starting: when one of
    the five configuration calls raises, the configuration calls made are
    the ones up to and including it (the later ones are never made), and no
    capture and no display is ever made. *)
Theorem failed_setup_never_enters_loop
  (env : oracle) (n : nat) (c : call) (e : obj) :
  In (c, Raised e) (trace (exec env n)) ->
  is_config c = true ->
  (exists k,
     nth_error [SensorReset; SensorSetPixformat sensor.RGB565;
                SensorSetFramesize sensor.QQVGA; TvInit; TvChannel 8] k
       = Some c /\
     config_calls (trace (exec env n)) =
       firstn (S k)
         [SensorReset; SensorSetPixformat sensor.RGB565;
          SensorSetFramesize sensor.QQVGA; TvInit; TvChannel 8])
  /\ ~ In SensorSnapshot (calls (trace (exec env n)))
  /\ frames (trace (exec env n)) = []
  /\ displayed (trace (exec env n)) = [].
Proof.
  intros HIn C.
  pose proof (exec_trace env n) as T.
  assert (P : In c prelude).
  { apply in_or_app. right. apply (config_call_in_setup _ c T C).
    change c with (fst (c, Raised e)). apply in_map. exact HIn. }
  destruct (prelude_raise_shape _ _ _ T HIn P) as (k & Hk & E).
  assert (Q : forall c', In c' (calls (trace (exec env n))) -> In c' prelude).
  { intros c' H. rewrite E in H. apply firstn_In in H. exact H. }
  destruct (prelude_calls_quiet _ Q) as (F & D & N).
  repeat split; try assumption.
  do 3 (destruct k as [|k]; [injection Hk as <-; discriminate C|]).
  exists k. unfold config_calls. rewrite E.
  do 5 (destruct k as [|k]; [split; [exact Hk | reflexivity]|]).
  destruct k; discriminate Hk.
Qed.

Lemma failed_setup_never_enters_loop_witness :
  (exists k,
     nth_error [SensorReset; SensorSetPixformat sensor.RGB565;
                SensorSetFramesize sensor.QQVGA; TvInit; TvChannel 8] k
       = Some TvInit /\
     config_calls (trace (exec env_no_shield 20)) =
       firstn (S k)
         [SensorReset; SensorSetPixformat sensor.RGB565;
          SensorSetFramesize sensor.QQVGA; TvInit; TvChannel 8])
  /\ ~ In SensorSnapshot (calls (trace (exec env_no_shield 20)))
  /\ frames (trace (exec env_no_shield 20)) = []
  /\ displayed (trace (exec env_no_shield 20)) = [].
Proof.
  apply (failed_setup_never_enters_loop env_no_shield 20 TvInit 101).
  - vm_compute. tauto.
  - reflexivity.
Defined.

(** ** Runs that stop, runs that go on *)

(** The exception a run stopped on is the answer of the environment to
    the last call. *)
Lemma uncaught_answered env n e :
  st (exec env n) = Uncaught e ->
  exists tr c,
    trace (exec env n) = tr ++ [(c, Raised e)] /\ env tr c = Raised e.
Proof.
  intros St.
  destruct (uncaught_last n _ e (reach_exec env n) St) as (tr & c & E).
  exists tr, c. split; [exact E|].
  assert (Hi : nth_error (trace (exec env n)) (length tr) = Some (c, Raised e)).
  { rewrite E, nth_error_app2, Nat.sub_diag by lia. reflexivity. }
  rewrite (asked_in_turn env n _ _ _ Hi), E.
  rewrite firstn_app, firstn_all, Nat.sub_diag. cbn [firstn].
  rewrite app_nil_r. reflexivity.
Qed.

(** X3.  The script raises nothing of its own.  Read with exceptions raised
    at the calls, where a program can also raise by itself: whenever the
    run of the script has ended on an exception, the last call made is a
    call that raised this very exception, and it is the environment that
    answered that call so, on the calls completed before it. *)
Theorem only_collaborators_raise (env : oracle) (n : nat) (e : obj) :
  stX (execX env n) = UncaughtX e ->
  exists tr c,
    traceX (execX env n) = tr ++ [(c, Raised e)] /\ env tr c = Raised e.
Proof.
  intros St. rewrite same_trace.
  apply uncaught_answered.
  apply (both_uncaughtX _ _ e (both_exec env n) St).
Qed.

Lemma only_collaborators_raise_witness :
  exists tr c,
    traceX (execX env_display_fails 20) = tr ++ [(c, Raised 103)] /\
    env_display_fails tr c = Raised 103.
Proof.
  apply (only_collaborators_raise env_display_fails 20 103).
  vm_compute. reflexivity.
Defined.

(** What X3 rules out: a program that raises by itself ends on an
    exception no call has raised. *)
Example own_exception_has_no_call :
  runX env_ok 1 (ConfigX [] (RunningX (observe raising_program))) =
  ConfigX [] (UncaughtX 7).
Proof. reflexivity. Qed.

(** At the head of the loop every frame captured has been displayed, and
    there is one frame an iteration. *)
Lemma clock_head_frames N c :
  reach (8 + 3 * N) c ->
  (forall e, st c <> Uncaught e) ->
  length (frames (trace c)) = N /\ displayed (trace c) = frames (trace c).
Proof.
  remember (8 + 3 * N) as n eqn:En. intros R U.
  destruct R as [vs H|k vs c0 e H L|vs its H|vs its f H|vs its f v H
                |k vs its e H L|k vs its f e H L]; cbn [trace st] in *;
    try lia; try (exfalso; apply (U e); reflexivity).
  autorewrite with trace_db. cbn [app length Nat.add].
  split; [lia | reflexivity].
Qed.

(** X4.  If no call ever raises, the script never stops: at every step it
    is still running; and for every [k], after the 8 calls of the prelude
    and [k] iterations it is at the head of the loop, having captured
    exactly [k] frames and displayed every one of them.  Any number of
    frames is reached: the display never starves. *)
Theorem never_raising_environment_runs_forever (env : oracle) :
  (forall tr c, exists v, env tr c = Returned v) ->
  (forall n, exists rest, st (exec env n) = Running rest)
  /\ (forall k,
        st (exec env (8 + 3 * k)) = Running LOOP /\
        length (frames (trace (exec env (8 + 3 * k)))) = k /\
        displayed (trace (exec env (8 + 3 * k))) =
          frames (trace (exec env (8 + 3 * k)))).
Proof.
  intros Q.
  assert (U : forall n e, st (exec env n) <> Uncaught e).
  { intros n e St.
    destruct (uncaught_last n _ e (reach_exec env n) St) as (tr & c & E).
    assert (Hi : nth_error (trace (exec env n)) (length tr) = Some (c, Raised e)).
    { rewrite E, nth_error_app2, Nat.sub_diag by lia. reflexivity. }
    pose proof (asked_in_turn env n _ _ _ Hi) as A.
    destruct (Q (firstn (length tr) (trace (exec env n))) c) as [v Hv].
    congruence. }
  split.
  - intros n. pose proof (reach_not_finished n _ (reach_exec env n)) as F.
    destruct (st (exec env n)) as [rest| |e] eqn:St.
    + exists rest. reflexivity.
    + destruct (F eq_refl).
    + destruct (U n e St).
  - intros k.
    destruct (clock_head k _ (reach_exec env (8 + 3 * k)) (U _)) as (St & _ & _).
    destruct (clock_head_frames k _ (reach_exec env (8 + 3 * k)) (U _)) as (F & D).
    repeat split; assumption.
Qed.

Lemma never_raising_environment_runs_forever_witness :
  st (exec env_frames (8 + 3 * 5)) = Running LOOP /\
  length (frames (trace (exec env_frames (8 + 3 * 5)))) = 5 /\
  displayed (trace (exec env_frames (8 + 3 * 5))) =
    frames (trace (exec env_frames (8 + 3 * 5))).
Proof.
  refine (proj2 (never_raising_environment_runs_forever env_frames _) 5).
  intros tr c. destruct c; eexists; reflexivity.
Defined.

(** X5.  No frame is lost when the script dies: in a run stopped by an
    exception, every frame a capture returned has been handed to
    [tv.display] (the last one possibly by the very call that raised). *)
Theorem no_frame_lost_at_failure (env : oracle) (n : nat) (e : obj) :
  st (exec env n) = Uncaught e ->
  displayed (trace (exec env n)) = frames (trace (exec env n)).
Proof.
  intros St.
  destruct (display_lag n _ (reach_exec env n)) as [(D & _)|(f & _ & _ & _ & R)].
  - exact D.
  - rewrite R in St. discriminate St.
Qed.

Lemma no_frame_lost_at_failure_witness :
  displayed (trace (exec env_display_fails 20)) =
  frames (trace (exec env_display_fails 20)).
Proof.
  apply (no_frame_lost_at_failure env_display_fails 20 103).
  vm_compute. reflexivity.
Defined.

(** X6.  Captures, displays and completed iterations stay within one of
    each other: in every run the iterations completed are at most the
    displays called, these at most the frames captured, and these at most
    one more than the iterations completed.  At most one frame captured has
    not yet been displayed with success. *)
Theorem counters_in_step (env : oracle) (n : nat) :
  iterations (trace (exec env n)) <= length (displayed (trace (exec env n)))
  /\ length (displayed (trace (exec env n))) <=
     length (frames (trace (exec env n)))
  /\ length (frames (trace (exec env n))) <=
     S (iterations (trace (exec env n))).
Proof.
  destruct (reach_exec env n)
    as [vs H|k vs c0 e H L|vs its H|vs its f H|vs its f v H
       |k vs its e H L|k vs its f e H L]; cbn [trace].
  2: { autorewrite with trace_db.
       destruct (prelude_entry_quiet c0 (Raised e) (nth_error_In _ _ H))
         as (-> & -> & ->).
       cbn. lia. }
  all: autorewrite with trace_db; cbn [frames displayed iterations flat_map
         filter app length Nat.add map fst snd];
       autorewrite with trace_db; cbn [app length Nat.add]; lia.
Qed.
